(** * Edge-based V2X emergency response: the coordination core

    A shallow embedding of the collision registry, the multi-hop alert
    relay, the genetic ambulance selection, the ant-colony reroute search,
    the vehicle agent and the edge-node broadcaster, with the properties the
    specification states about them.

    Conventions of the embedding.
    - Python floats are exact rationals ([Q]).  A test of a Euclidean
      distance against a threshold, [math.hypot(dx, dy) <= r], is decided on
      squares ([dx^2 + dy^2 <= r^2] with [0 <= r]).  Where the distance
      itself enters arithmetic (the fitness score) the square root is a field
      of the environment, [math_sqrt].
    - A Python [dict] is an association list in insertion order with the
      assignment [d[k] = v] replacing in place ([PyDict]); a Python [set] is
      a [gset].
    - A Python function that can raise returns [res]: [Ok v] or [Raise e].
    - The traffic simulator (TraCI) is an oracle record: a query that raises
      answers [None].
    - The pseudo-random generator is a tape of draws read left to right. *)

From Stdlib Require Import QArith String List ZArith Lia Bool.
From stdpp Require Import gmap strings list.
Import ListNotations.
Local Open Scope string_scope.
Local Open Scope list_scope.

(** ** Exceptions and results *)

Inductive exn : Type :=
| IndexError
| KeyError
| TypeError
| ZeroDivisionError
| UnboundLocalError
| ValueError
| TraCIException.

Inductive res (A : Type) : Type :=
| Ok (a : A)
| Raise (e : exn).
Arguments Ok {A} a.
Arguments Raise {A} e.

Definition bind {A B : Type} (m : res A) (k : A -> res B) : res B :=
  match m with
  | Ok a => k a
  | Raise e => Raise e
  end.

Notation "'do' x <- m ; k" := (bind m (fun x => k))
  (at level 10, x name, m at level 100, k at level 200).

(** ** Rational helpers *)

Definition Qleb (x y : Q) : bool := Qle_bool x y.
Definition Qltb (x y : Q) : bool := negb (Qle_bool y x).
Definition Qeqb (x y : Q) : bool := Qeq_bool x y.

Definition Qsum (l : list Q) : Q := fold_left Qplus l 0%Q.

(** ** Python dictionaries: insertion-ordered association lists *)

Module PyDict.
Section Dict.
Context {K V : Type} `{EqDecision K}.

(** [d.get(k)], [None] for a missing key. *)
Fixpoint get (k : K) (d : list (K * V)) : option V :=
  match d with
  | [] => None
  | (k', v) :: d' => if decide (k = k') then Some v else get k d'
  end.

(** [k in d] *)
Definition mem (k : K) (d : list (K * V)) : bool :=
  match get k d with Some _ => true | None => false end.

(** [d[k] = v]: an existing key keeps its position, a new key goes last. *)
Fixpoint set (k : K) (v : V) (d : list (K * V)) : list (K * V) :=
  match d with
  | [] => [(k, v)]
  | (k', v') :: d' =>
      if decide (k = k') then (k, v) :: d' else (k', v') :: set k v d'
  end.

(** [d.get(k, dflt)] *)
Definition get_default (k : K) (dflt : V) (d : list (K * V)) : V :=
  match get k d with Some v => v | None => dflt end.

Definition keys (d : list (K * V)) : list K := map fst d.
End Dict.
End PyDict.

(** ** Positions and distances *)

Definition pos : Type := (Q * Q)%type.

Definition dist2 (p q : pos) : Q :=
  ((fst p - fst q) * (fst p - fst q) + (snd p - snd q) * (snd p - snd q))%Q.

(** [math.hypot(..) <= r] *)
Definition hypot_le (p q : pos) (r : Q) : bool :=
  Qleb 0 r && Qleb (dist2 p q) (r * r).


(** Stable insertion sort on a rational key ([list.sort(key=...)]): of two
    elements with equal keys the one that came first stays first. *)
Section StableSort.
Context {A : Type} (key : A -> Q).

Fixpoint insert_by (x : A) (l : list A) : list A :=
  match l with
  | [] => [x]
  | y :: l' => if Qleb (key x) (key y) then x :: y :: l' else y :: insert_by x l'
  end.

Definition sort_by (l : list A) : list A :=
  fold_right insert_by [] l.
End StableSort.

(** ** The random source ([random.random], [random.choice]) *)

Record Rng : Type := mkRng {
  rnd_uniform : nat -> Q;        (** the value of the i-th draw read as [random()] *)
  rnd_index : nat -> nat -> nat; (** the i-th draw read as an index below [n] *)
  rnd_pos : nat                  (** draws consumed so far *)
}.

Definition rng_step (g : Rng) : Rng :=
  {| rnd_uniform := rnd_uniform g; rnd_index := rnd_index g; rnd_pos := S (rnd_pos g) |}.

(** Code that draws random numbers and may raise: the generator is global
    state, so it survives an exception. *)
Definition M (A : Type) : Type := Rng -> res A * Rng.

Definition ret {A : Type} (a : A) : M A := fun g => (Ok a, g).
Definition raise {A : Type} (e : exn) : M A := fun g => (Raise e, g).
Definition lift {A : Type} (r : res A) : M A := fun g => (r, g).

Definition bindM {A B : Type} (m : M A) (k : A -> M B) : M B :=
  fun g => match m g with
           | (Ok a, g') => k a g'
           | (Raise e, g') => (Raise e, g')
           end.

Notation "'run' x <- m ; k" := (bindM m (fun x => k))
  (at level 10, x name, m at level 100, k at level 200).

Definition random_random : M Q :=
  fun g => (Ok (rnd_uniform g (rnd_pos g)), rng_step g).

(** [random.choice(seq)]: [IndexError] on an empty sequence. *)
Definition random_choice {A : Type} (seq : list A) : M A :=
  fun g =>
    match nth_error seq (Nat.modulo (rnd_index g (rnd_pos g) (length seq)) (length seq)) with
    | Some x => (Ok x, rng_step g)
    | None => (Raise IndexError, g)
    end.

(** ** The traffic simulator and the platform, as oracles *)

Record Env : Type := mkEnv {
  getIDList : list string;
  getPosition : string -> option pos;          (** [None]: the query raises *)
  getRoadID : string -> option string;
  getRoute : string -> option (list string);
  setRoute_accepts : string -> list (option string) -> bool; (** [false]: TraCIException *)
  getTime : Q;
  get_fuzzy_congestion : string -> option Q;   (** congestion.py, [None]: raises *)
  math_sqrt : Q -> Q
}.

(** ** Records shared by the modules *)

(** The value stored under an accident id in [CENBroadcast.accidents]. *)
Record accident : Type := mkAccident {
  location : pos;
  last_time : Q;
  registered_by_edge : option string;   (** [None] when there is no edge node *)
  registered_by_name : option string;
  vehicles_involved : gset string
}.

(** What the run prints or commands, kept as a log. *)
Inductive event : Type :=
| EvReceived (vid acc_id : string)                 (** [[V2I] ... received accident] *)
| EvRecompute (vid acc_id : string)                (** [aco_reroute] is called *)
| EvSetRoute (vid acc_id : string) (r : list (option string)) (** [traci.vehicle.setRoute] is called *)
| EvRerouteFailed (vid acc_id : string)            (** [[ERROR] Failed to set new route] *)
| EvBroadcast (acc_id : string)                    (** [[CEN ... BROADCAST]] *)
| EvCenReceived (edge_id acc_id : string).         (** [[CEN ... RECEIVED]] *)

(** Python binds keyword arguments by name: a keyword that the signature
    does not declare, or a parameter without default that the call leaves
    out, raises [TypeError] before the body runs.  A signature lists each
    parameter with whether it has a default. *)
Definition binds (signature : list (string * bool)) (keywords : list string) : bool :=
  forallb (fun k => existsb (fun p => String.eqb k (fst p)) signature) keywords
  && forallb (fun p => snd p || existsb (String.eqb (fst p)) keywords) signature.

(** ** vehicle.py: the vehicle agent and its reroute search *)

(** A road identifier as the vehicle holds it: a Python [str], or [None]
    before the first successful [update_position]. *)
Abbreviation edge := (option string).

Definition graph_t : Type := list (string * list (string * Q)).

Module Vehicle.

Record t : Type := mk {
  veh_id : string;
  destination : string;
  current_edge : edge;
  route : list edge;
  accidents_received : gset string
}.

(** [Vehicle.__init__] *)
Definition init (vid dest : string) : t :=
  {| veh_id := vid; destination := dest; current_edge := None; route := [];
     accidents_received := ∅ |}.

Definition NUM_ANTS : nat := 6.
Definition MAX_HOPS : nat := 20.
Definition evaporation : Q := 1 # 10.

Definition edge_eqb (a b : edge) : bool := bool_decide (a = b).

Definition edge_in (a : edge) (l : list edge) : bool := existsb (edge_eqb a) l.

(** [graph.get(current, [])] *)
Definition graph_get (current : edge) (graph : graph_t) : list (string * Q) :=
  match current with
  | Some s => PyDict.get_default s [] graph
  | None => []
  end.

(** [[(n, c) for n, c in graph.get(current, []) if n != blocked_edge and n not in visited]] *)
Definition candidates (graph : graph_t) (current blocked : edge) (visited : list edge)
  : list (string * Q) :=
  List.filter (fun nc => negb (edge_eqb (Some (fst nc)) blocked)
                    && negb (edge_in (Some (fst nc)) visited))
         (graph_get current graph).

(** [tau * eta] for each candidate, with [alpha = 1.0] and [beta = 2.0]:
    [tau = pheromone.get(n, 1.0)] and [eta = (1.0 / c) ** 2]. *)
Fixpoint desirabilities (pheromone : list (edge * Q)) (nbrs : list (string * Q))
  : res (list Q) :=
  match nbrs with
  | [] => Ok []
  | (n, c) :: rest =>
      if Qeqb c 0 then Raise ZeroDivisionError
      else
        let tau := PyDict.get_default (Some n) 1%Q pheromone in
        let eta := ((1 / c) * (1 / c))%Q in
        do ws <- desirabilities pheromone rest;
        Ok ((tau * eta)%Q :: ws)
  end.

(** [probs = [p / total for p in probs]] *)
Definition normalise (ws : list Q) : res (list Q) :=
  let total := Qsum ws in
  if Qeqb total 0 then Raise ZeroDivisionError
  else Ok (map (fun p => (p / total)%Q) ws).

(** The inverse-CDF scan: the first candidate whose cumulative probability
    reaches [r]; [None] when the scan ends without assigning [next_node]. *)
Fixpoint scan (r cumulative : Q) (nbrs : list (string * Q)) (probs : list Q)
  : option (string * Q) :=
  match nbrs, probs with
  | (n, c) :: nbrs', p :: probs' =>
      let cumulative' := (cumulative + p)%Q in
      if Qleb r cumulative' then Some (n, c) else scan r cumulative' nbrs' probs'
  | _, _ => None
  end.

(** The local variables of one ant that the hop loop updates.  [next_pick]
    holds [next_node] and [next_cost], which are function locals and keep
    their last value from one hop, and one ant, to the next. *)
Record ant : Type := mkAnt {
  visited : list edge;
  cost : Q;
  next_pick : option (string * Q)
}.

(** [for _ in range(MAX_HOPS): ...] from [current]. *)
Fixpoint walk (hops : nat) (graph : graph_t) (blocked : edge) (dest : string)
  (pheromone : list (edge * Q)) (current : edge) (a : ant) : M ant :=
  match hops with
  | O => ret a
  | S hops' =>
      match candidates graph current blocked (visited a) with
      | [] => ret a
      | nbrs =>
          run ws <- lift (desirabilities pheromone nbrs) ;
          run probs <- lift (normalise ws) ;
          run r <- random_random ;
          let pick' := match scan r 0 nbrs probs with
                       | Some p => Some p
                       | None => next_pick a
                       end in
          match pick' with
          | None => raise UnboundLocalError
          | Some (next_node, next_cost) =>
              let a' := {| visited := visited a ++ [Some next_node];
                           cost := (cost a + next_cost)%Q;
                           next_pick := pick' |} in
              if edge_eqb (Some next_node) (Some dest) then ret a'
              else walk hops' graph blocked dest pheromone (Some next_node) a'
          end
      end
  end.

(** [pheromone[node] = (1 - evaporation) * pheromone.get(node, 1.0) + 0.1]
    for each visited node. *)
Definition deposit (pheromone : list (edge * Q)) (vis : list edge) : list (edge * Q) :=
  fold_left
    (fun ph node =>
       PyDict.set node (((1 - evaporation) * PyDict.get_default node 1%Q ph + (1 # 10))%Q) ph)
    vis pheromone.

(** What the ant loop carries from one trial to the next. *)
Record colony : Type := mkColony {
  pheromone_of : list (edge * Q);
  best_route : option (list edge);
  best_cost : option Q;            (** [None] is [float("inf")] *)
  carried_pick : option (string * Q)
}.

Definition cost_improves (c : Q) (best : option Q) : bool :=
  match best with
  | None => true
  | Some b => Qltb c b
  end.

(** One trial of [for _ in range(NUM_ANTS)]. *)
Definition trial (graph : graph_t) (blocked : edge) (v : t) (col : colony) : M colony :=
  let current := current_edge v in
  run a <- walk MAX_HOPS graph blocked (destination v) (pheromone_of col) current
         {| visited := [current]; cost := 0; next_pick := carried_pick col |} ;
  let reached := edge_eqb (List.last (visited a) None) (Some (destination v)) in
  let better := reached && cost_improves (cost a) (best_cost col) in
  ret {| pheromone_of := deposit (pheromone_of col) (visited a);
         best_route := if better then Some (visited a) else best_route col;
         best_cost := if better then Some (cost a) else best_cost col;
         carried_pick := next_pick a |}.

Fixpoint trials (n : nat) (graph : graph_t) (blocked : edge) (v : t) (col : colony)
  : M colony :=
  match n with
  | O => ret col
  | S n' => run col' <- trial graph blocked v col ; trials n' graph blocked v col'
  end.

Definition strip (blocked : edge) (r : list edge) : list edge :=
  List.filter (fun e => negb (edge_eqb e blocked)) r.

(** The fallback and the post-processing (vehicle.py, lines 139-148). *)
Definition finish (v : t) (blocked : edge) (best : option (list edge)) : res (list edge) :=
  let best_route :=
    match best with
    | Some (e :: r) => e :: r
    | _ => strip blocked (route v)
    end in
  match best_route with
  | [] => Raise IndexError
  | first :: _ =>
      let best_route :=
        if negb (edge_eqb first (current_edge v)) then current_edge v :: best_route
        else best_route in
      Ok (strip blocked best_route)
  end.

Definition aco_reroute (v : t) (graph : graph_t) (blocked : edge) : M (list edge) :=
  let pheromone := map (fun kv => (Some (fst kv), 1%Q)) graph in
  run col <- trials NUM_ANTS graph blocked v
           {| pheromone_of := pheromone; best_route := None; best_cost := None;
              carried_pick := None |} ;
  lift (finish v blocked (best_route col)).

(** [update_position]: each query that raises leaves the later
    assignments undone. *)
Definition update_position (env : Env) (v : t) : t :=
  match getRoadID env (veh_id v) with
  | None => v
  | Some e =>
      let v' := {| veh_id := veh_id v; destination := destination v;
                   current_edge := Some e; route := route v;
                   accidents_received := accidents_received v |} in
      match getRoute env (veh_id v) with
      | None => v'
      | Some r =>
          {| veh_id := veh_id v; destination := destination v;
             current_edge := Some e; route := map Some r;
             accidents_received := accidents_received v |}
      end
  end.

(** [distance_to_cen(cen_pos) <= comm_range]; a failed position query gives
    [float('inf')]. *)
Definition cen_in_range (env : Env) (v : t) (cen_pos : pos) (comm_range : Q) : bool :=
  match getPosition env (veh_id v) with
  | Some veh_pos => hypot_le veh_pos cen_pos comm_range
  | None => false
  end.

(** [map_position_to_edge].  The graph's nodes and neighbours are strings,
    so [isinstance(node_pos, tuple)] is false and every node is at distance
    [hypot(0, 0) = 0]: the strict test keeps the first node.  [min_dist] is
    [None] for [float('inf')]. *)
Definition map_position_to_edge (v : t) (position : pos) (graph : graph_t) : edge :=
  let step (acc : option Q * option string) (entry : string * list (string * Q)) :=
    let d := 0%Q in
    let closer := match fst acc with None => true | Some m => Qltb d m end in
    if closer then (Some d, Some (fst entry)) else acc in
  match snd (fold_left step graph (None, None)) with
  | Some node => if String.eqb node "" then current_edge v else Some node
  | None => current_edge v
  end.

Definition with_received (acc_id : string) (v : t) : t :=
  {| veh_id := veh_id v; destination := destination v; current_edge := current_edge v;
     route := route v; accidents_received := accidents_received v ∪ {[ acc_id ]} |}.

Definition with_route (r : list edge) (v : t) : t :=
  {| veh_id := veh_id v; destination := destination v; current_edge := current_edge v;
     route := r; accidents_received := accidents_received v |}.

(** The state a call of [listen_and_reroute] leaves: the vehicle, the log,
    and the exception that ended the call, if any. *)
Record outcome : Type := mkOutcome {
  vehicle : t;
  log : list event;
  raised : option exn
}.

Definition route_eqb (r1 r2 : list edge) : bool := bool_decide (r1 = r2).

(** The body of the loop over [cen.accidents.items()] for one accident that
    is in range and not yet received (vehicle.py, lines 49-70). *)
Definition react (env : Env) (graph : graph_t) (acc_id : string) (data : accident)
  (v : t) (lg : list event) : Rng -> outcome * Rng :=
  fun g =>
    let v1 := with_received acc_id v in
    let lg1 := lg ++ [EvReceived (veh_id v) acc_id] in
    let accident_edge_actual := map_position_to_edge v1 (location data) graph in
    let old_route := route v1 in
    let lg2 := lg1 ++ [EvRecompute (veh_id v) acc_id] in
    match aco_reroute v1 graph accident_edge_actual g with
    | (Raise e, g') => ({| vehicle := v1; log := lg2; raised := Some e |}, g')
    | (Ok new_route, g') =>
        if negb (route_eqb new_route old_route) then
          let v2 := with_route new_route v1 in
          let lg3 := lg2 ++ [EvSetRoute (veh_id v) acc_id new_route] in
          if setRoute_accepts env (veh_id v) new_route
          then ({| vehicle := v2; log := lg3; raised := None |}, g')
          else ({| vehicle := v2; log := lg3 ++ [EvRerouteFailed (veh_id v) acc_id];
                   raised := None |}, g')
        else ({| vehicle := v1; log := lg2; raised := None |}, g')
    end.

(** [for acc_id, data in cen.accidents.items(): ...] *)
Fixpoint listen_loop (env : Env) (cen_positions : list (string * pos)) (graph : graph_t)
  (comm_range : Q) (items : list (string * accident)) (v : t) (lg : list event)
  : Rng -> outcome * Rng :=
  fun g =>
    match items with
    | [] => ({| vehicle := v; log := lg; raised := None |}, g)
    | (acc_id, data) :: rest =>
        let continue := listen_loop env cen_positions graph comm_range rest in
        if bool_decide (acc_id ∈ accidents_received v) then continue v lg g
        else
          match registered_by_edge data with
          | None => continue v lg g
          | Some broadcasting_edge =>
              match PyDict.get broadcasting_edge cen_positions with
              | None => continue v lg g
              | Some cen_pos =>
                  if cen_in_range env v cen_pos comm_range then
                    match react env graph acc_id data v lg g with
                    | ({| vehicle := v'; log := lg'; raised := None |}, g') =>
                        continue v' lg' g'
                    | stopped => stopped
                    end
                  else continue v lg g
              end
          end
    end.

(** [listen_and_reroute(self, cen, cen_positions, graph, comm_range=200)];
    [accidents] is [cen.accidents]. *)
Definition listen_and_reroute (env : Env) (accidents : list (string * accident))
  (cen_positions : list (string * pos)) (graph : graph_t) (comm_range : Q)
  (v : t) (lg : list event) : Rng -> outcome * Rng :=
  fun g =>
    let v0 := update_position env v in
    match getPosition env (veh_id v0) with
    | None => ({| vehicle := v0; log := lg; raised := None |}, g)
    | Some _ => listen_loop env cen_positions graph comm_range accidents v0 lg g
    end.

(** The parameters of [listen_and_reroute] after [self] (vehicle.py, line 28). *)
Definition listen_and_reroute_signature : list (string * bool) :=
  [("cen", false); ("cen_positions", false); ("graph", false); ("comm_range", true)].

(** A call of [listen_and_reroute] that passes every argument by keyword. *)
Definition call_listen_and_reroute (keywords : list string) (env : Env)
  (accidents : list (string * accident)) (cen_positions : list (string * pos))
  (graph : graph_t) (comm_range : Q) (v : t) (lg : list event)
  : Rng -> outcome * Rng :=
  fun g =>
    if binds listen_and_reroute_signature keywords
    then listen_and_reroute env accidents cen_positions graph comm_range v lg g
    else ({| vehicle := v; log := lg; raised := Some TypeError |}, g).

(** The inputs of one call of [listen_and_reroute]: the simulator as it
    answers during the call, and the arguments. *)
Record call : Type := mkCall {
  call_env : Env;
  call_accidents : list (string * accident);
  call_cen_positions : list (string * pos);
  call_graph : graph_t;
  call_comm_range : Q
}.

(** A vehicle through successive calls; a call that raises leaves the
    vehicle and the log as they were when it stopped. *)
Fixpoint listen_calls (calls : list call) (v : t) (lg : list event)
  : Rng -> (t * list event) * Rng :=
  fun g =>
    match calls with
    | [] => ((v, lg), g)
    | c :: rest =>
        match listen_and_reroute (call_env c) (call_accidents c) (call_cen_positions c)
                (call_graph c) (call_comm_range c) v lg g with
        | (o, g') => listen_calls rest (vehicle o) (log o) g'
        end
    end.

End Vehicle.

(** ** cen_broadcast.py: the edge-node broadcaster *)

(** An alert as an edge node files it ([alert_info] in run_simulation.py). *)
Record alert_info : Type := mkAlert {
  alert_accident_id : string;
  alert_vehicles_involved : string * string;
  alert_location : pos;
  alert_timestamp : Q;
  received_at : Q;
  alert_hop_count : nat;
  alert_propagation_path : list string
}.

(** The value stored under an edge-node id ([initialize_edge_nodes]). *)
Record edge_node : Type := mkEdgeNode {
  position : pos;
  connected_vehicles : gset string;
  message_cache : gset string;
  total_messages_received : nat;
  unique_accidents_reported : gset string;
  accident_alerts_received : list alert_info
}.

Module CEN.

Record t : Type := mk {
  interval : Q;
  accidents : list (string * accident);
  edge_nodes : list (string * edge_node)
}.

Definition edgecen_names : list (string * string) :=
  [("EdgeNode_A", "EdgeCEN_A"); ("EdgeNode_D", "EdgeCEN_D");
   ("EdgeNode_C", "EdgeCEN_C"); ("EdgeNode_I", "EdgeCEN_I")].

(** [CENBroadcast(interval, edge_nodes)] *)
Definition init (interval : Q) (edge_nodes : list (string * edge_node)) : t :=
  {| interval := interval; accidents := []; edge_nodes := edge_nodes |}.

(** [get_nearest_edge_node]: the first node at the least distance;
    [min_dist] is kept squared, [None] for [float('inf')]. *)
Definition get_nearest_edge_node (c : t) (p : pos) : option string :=
  let step (acc : option Q * option string) (entry : string * edge_node) :=
    let d := dist2 p (position (snd entry)) in
    let closer := match fst acc with None => true | Some m => Qltb d m end in
    if closer then (Some d, Some (fst entry)) else acc in
  snd (fold_left step (edge_nodes c) (None, None)).

(** [edgecen_names.get(registering_edge, registering_edge)] *)
Definition cen_name (e : option string) : option string :=
  match e with
  | Some s => Some (PyDict.get_default s s edgecen_names)
  | None => None
  end.

(** [register]; [vehicles_involved] lists what iterating the argument
    yields, and [set(..)] collects it. *)
Definition register (accident_id : string) (loc : pos) (sim_time : Q)
  (involved : list string) (c : t) : t :=
  let registering_edge := get_nearest_edge_node c loc in
  let registering_name := cen_name registering_edge in
  {| interval := interval c;
     accidents :=
       PyDict.set accident_id
         {| location := loc; last_time := sim_time;
            registered_by_edge := registering_edge;
            registered_by_name := registering_name;
            vehicles_involved := list_to_set involved |}
         (accidents c);
     edge_nodes := edge_nodes c |}.

(** The keywords of the call of [listen_and_reroute] in [broadcast]
    (cen_broadcast.py, lines 77-83). *)
Definition broadcast_call_keywords : list string :=
  ["cen"; "cen_positions"; "graph"; "accident_edge"; "comm_range"].

(** The edge nodes that print a [RECEIVED] line for an accident. *)
Definition notify_edge_nodes (c : t) (acc_id : string) (data : accident) (comm_range : Q)
  : list event :=
  flat_map (fun entry =>
              if hypot_le (position (snd entry)) (location data) comm_range
              then [EvCenReceived (fst entry) acc_id] else [])
           (edge_nodes c).

(** [for vid, vehicle in vehicles_dict.items(): ...] for one accident.  The
    bare [except] swallows whatever the body raises. *)
Fixpoint notify_vehicles (env : Env) (c : t) (graph : graph_t) (comm_range : Q)
  (data : accident) (vs : list (string * Vehicle.t)) (lg : list event)
  : Rng -> (list (string * Vehicle.t) * list event) * Rng :=
  fun g =>
    match vs with
    | [] => (([], lg), g)
    | (vid, veh) :: rest =>
        let again (veh' : Vehicle.t) (lg' : list event) (g' : Rng) :=
          match notify_vehicles env c graph comm_range data rest lg' g' with
          | ((rest', lg''), g'') => (((vid, veh') :: rest', lg''), g'')
          end in
        if bool_decide (vid ∈ vehicles_involved data) then again veh lg g
        else
          match getPosition env vid with
          | None => again veh lg g
          | Some veh_pos =>
              match registered_by_edge data with
              | None => again veh lg g
              | Some broadcasting_edge =>
                  match PyDict.get broadcasting_edge (edge_nodes c) with
                  | None => again veh lg g
                  | Some node =>
                      if hypot_le veh_pos (position node) comm_range then
                        let positions_dict :=
                          map (fun kv => (fst kv, position (snd kv))) (edge_nodes c) in
                        match Vehicle.call_listen_and_reroute broadcast_call_keywords
                                env (accidents c) positions_dict graph comm_range veh lg g with
                        | (o, g') => again (Vehicle.vehicle o) (Vehicle.log o) g'
                        end
                      else again veh lg g
                  end
              end
          end
    end.

(** What [broadcast] leaves: the accidents with their broadcast times, the
    vehicles, and the log. *)
Record swept : Type := mkSwept {
  accidents_after : list (string * accident);
  vehicles_after : list (string * Vehicle.t);
  log_after : list event
}.

Definition with_last_time (now : Q) (data : accident) : accident :=
  {| location := location data; last_time := now;
     registered_by_edge := registered_by_edge data;
     registered_by_name := registered_by_name data;
     vehicles_involved := vehicles_involved data |}.

(** [sim_time - data["last_time"] >= self.interval] *)
Definition due (c : t) (now : Q) (data : accident) : bool :=
  Qleb (interval c) (now - last_time data).

(** [for acc_id, data in self.accidents.items(): ...]; [todo] is what is
    left of the items.  The vehicles are called with the broadcaster as it
    stands: [done_] holds the entries already swept. *)
Fixpoint sweep (env : Env) (c : t) (now : Q) (graph : graph_t) (comm_range : Q)
  (done_ todo : list (string * accident)) (vs : list (string * Vehicle.t))
  (lg : list event) : Rng -> swept * Rng :=
  fun g =>
    match todo with
    | [] => ({| accidents_after := done_; vehicles_after := vs; log_after := lg |}, g)
    | (acc_id, data) :: rest =>
        if due c now data then
          let cur := {| interval := interval c;
                        accidents := done_ ++ (acc_id, data) :: rest;
                        edge_nodes := edge_nodes c |} in
          let lg1 := lg ++ [EvBroadcast acc_id] in
          let lg2 := match edge_nodes c with
                     | [] => lg1
                     | _ => lg1 ++ notify_edge_nodes c acc_id data comm_range
                     end in
          match
            (match vs, edge_nodes c with
             | _ :: _, _ :: _ => notify_vehicles env cur graph comm_range data vs lg2 g
             | _, _ => ((vs, lg2), g)
             end)
          with
          | ((vs', lg3), g') =>
              sweep env c now graph comm_range
                    (done_ ++ [(acc_id, with_last_time now data)]) rest vs' lg3 g'
          end
        else
          sweep env c now graph comm_range (done_ ++ [(acc_id, data)]) rest vs lg g
    end.

(** [broadcast(sim_time, vehicles_dict, graph, comm_range)], with the
    communication range supplied as every caller does. *)
Definition broadcast (env : Env) (now : Q) (vs : list (string * Vehicle.t))
  (graph : graph_t) (comm_range : Q) (c : t) (lg : list event)
  : Rng -> swept * Rng :=
  sweep env c now graph comm_range [] (accidents c) vs lg.

End CEN.

(** ** run_simulation.py: the alert relay and the collision registry *)

Module Sim.

Definition V2V_COMMUNICATION_RANGE : Q := 200.
Definition MAX_HOP_COUNT : nat := 5.

Definition EDGE_NODE_POSITIONS : list (string * pos) :=
  [("EdgeNode_A", (30, 20)%Q); ("EdgeNode_D", (30, 120)%Q);
   ("EdgeNode_C", (200, 180)%Q); ("EdgeNode_I", (200, 20)%Q)].

Record payload : Type := mkPayload {
  accident_id : string;
  involved : string * string;
  accident_location : pos;
  severity : string;
  timestamp : Q
}.

Record V2VMessage : Type := mkMessage {
  message_id : string;
  source_id : string;
  message_type : string;
  message_payload : payload;
  origin_location : pos;
  hop_count : nat;
  propagation_path : list string;
  created_at : Q;
  reached_edge_node : bool
}.

(** [V2VMessage.__init__] *)
Definition new_message (env : Env) (mid src mtype : string) (pl : payload) (origin : pos)
  : V2VMessage :=
  {| message_id := mid; source_id := src; message_type := mtype; message_payload := pl;
     origin_location := origin; hop_count := 0; propagation_path := [src];
     created_at := getTime env; reached_edge_node := false |}.

Definition set_hop_count (n : nat) (m : V2VMessage) : V2VMessage :=
  {| message_id := message_id m; source_id := source_id m; message_type := message_type m;
     message_payload := message_payload m; origin_location := origin_location m;
     hop_count := n; propagation_path := propagation_path m;
     created_at := created_at m; reached_edge_node := reached_edge_node m |}.

Definition set_propagation_path (p : list string) (m : V2VMessage) : V2VMessage :=
  {| message_id := message_id m; source_id := source_id m; message_type := message_type m;
     message_payload := message_payload m; origin_location := origin_location m;
     hop_count := hop_count m; propagation_path := p;
     created_at := created_at m; reached_edge_node := reached_edge_node m |}.

(** [V2VMessage.increment_hop] *)
Definition increment_hop (next_node : string) (m : V2VMessage) : V2VMessage :=
  set_propagation_path (propagation_path m ++ [next_node])
    (set_hop_count (hop_count m + 1) m).

(** The relay clone that [propagate_v2v_message] builds for a candidate
    (run_simulation.py, lines 170-179), statement by statement. *)
Definition relay_clone (env : Env) (message : V2VMessage) (vehicle_id : string)
  : V2VMessage :=
  let next_message :=
    new_message env (message_id message) vehicle_id (message_type message)
                (message_payload message) (origin_location message) in
  let next_message := set_hop_count (hop_count message + 1) next_message in
  let next_message := set_propagation_path (propagation_path message) next_message in
  increment_hop vehicle_id next_message.

(** The globals the relay reads and writes. *)
Record world : Type := mkWorld {
  edge_nodes : list (string * edge_node);
  message_history : list (string * list V2VMessage);
  hop_count_stats : list (nat * nat)
}.

(** [initialize_edge_nodes] *)
Definition initialize_edge_nodes : list (string * edge_node) :=
  map (fun kv => (fst kv,
                  {| position := snd kv; connected_vehicles := ∅; message_cache := ∅;
                     total_messages_received := 0; unique_accidents_reported := ∅;
                     accident_alerts_received := [] |}))
      EDGE_NODE_POSITIONS.

(** [get_vehicle_position] *)
Definition get_vehicle_position (env : Env) (vehicle_id : string) : option pos :=
  if existsb (String.eqb vehicle_id) (getIDList env) then getPosition env vehicle_id
  else None.

(** [find_vehicles_in_range]; the second component is the squared distance,
    which orders the list as the distance does. *)
Definition find_vehicles_in_range (env : Env) (source_position : pos)
  (exclude_vehicle : string) : list (string * Q * pos) :=
  sort_by (fun x => snd (fst x))
    (flat_map
       (fun vehicle_id =>
          if String.eqb vehicle_id exclude_vehicle || String.prefix "ambulance" vehicle_id
          then []
          else match get_vehicle_position env vehicle_id with
               | Some vehicle_pos =>
                   if hypot_le source_position vehicle_pos V2V_COMMUNICATION_RANGE
                   then [(vehicle_id, dist2 source_position vehicle_pos, vehicle_pos)]
                   else []
               | None => []
               end)
       (getIDList env)).

(** [find_edge_nodes_in_range] *)
Definition find_edge_nodes_in_range (w : world) (p : pos) : list (string * Q) :=
  sort_by snd
    (flat_map
       (fun entry =>
          if hypot_le p (position (snd entry)) V2V_COMMUNICATION_RANGE
          then [(fst entry, dist2 p (position (snd entry)))] else [])
       (edge_nodes w)).

(** An edge node takes a message it has not cached
    (run_simulation.py, lines 145-160). *)
Definition receive (env : Env) (message : V2VMessage) (node : edge_node) : edge_node :=
  let emergency := String.eqb (message_type message) "EMERGENCY" in
  let pl := message_payload message in
  {| position := position node;
     connected_vehicles := connected_vehicles node;
     message_cache := message_cache node ∪ {[ message_id message ]};
     total_messages_received := total_messages_received node + 1;
     unique_accidents_reported :=
       if emergency then unique_accidents_reported node ∪ {[ accident_id pl ]}
       else unique_accidents_reported node;
     accident_alerts_received :=
       if emergency then
         accident_alerts_received node ++
           [{| alert_accident_id := accident_id pl;
               alert_vehicles_involved := involved pl;
               alert_location := accident_location pl;
               alert_timestamp := timestamp pl;
               received_at := getTime env;
               alert_hop_count := hop_count message;
               alert_propagation_path := propagation_path message |}]
       else accident_alerts_received node |}.

(** The first edge node in range that has not cached the message. *)
Fixpoint first_undelivered (w : world) (mid : string) (in_range : list (string * Q))
  : option (string * edge_node) :=
  match in_range with
  | [] => None
  | (edge_id, _) :: rest =>
      match PyDict.get edge_id (edge_nodes w) with
      | Some node =>
          if bool_decide (mid ∈ message_cache node) then first_undelivered w mid rest
          else Some (edge_id, node)
      | None => first_undelivered w mid rest
      end
  end.

Definition deliver (env : Env) (message : V2VMessage) (edge_id : string) (node : edge_node)
  (w : world) : world :=
  {| edge_nodes := PyDict.set edge_id (receive env message node) (edge_nodes w);
     message_history := message_history w;
     hop_count_stats :=
       PyDict.set (hop_count message)
                  (PyDict.get_default (hop_count message) 0 (hop_count_stats w) + 1)
                  (hop_count_stats w) |}.

(** [message_history[id].append(next_message)], creating the list first. *)
Definition record_clone (next_message : V2VMessage) (w : world) : world :=
  let mid := message_id next_message in
  {| edge_nodes := edge_nodes w;
     message_history :=
       PyDict.set mid (PyDict.get_default mid [] (message_history w) ++ [next_message])
                  (message_history w);
     hop_count_stats := hop_count_stats w |}.

(** [propagate_v2v_message].  The recursion of the source is on the relay
    depth; [fuel] bounds it, and [None] means the bound was too small.
    [reached_edge_node] is set on the delivered message only: nothing reads
    it, and the history's entries keep the value they were stored with. *)
Fixpoint propagate (fuel : nat) (env : Env) (message : V2VMessage)
  (current_vehicle_id : string) (current_position : pos) (w : world)
  : option (bool * world) :=
  match fuel with
  | O => None
  | S fuel' =>
      if (MAX_HOP_COUNT <=? hop_count message)%nat then Some (false, w)
      else
        match first_undelivered w (message_id message)
                (find_edge_nodes_in_range w current_position) with
        | Some (edge_id, node) => Some (true, deliver env message edge_id node w)
        | None =>
            (fix relay (cands : list (string * Q * pos)) (w : world)
               : option (bool * world) :=
               match cands with
               | [] => Some (false, w)
               | (vehicle_id, _, vehicle_pos) :: rest =>
                   if existsb (String.eqb vehicle_id) (propagation_path message)
                   then relay rest w
                   else
                     let next_message := relay_clone env message vehicle_id in
                     match propagate fuel' env next_message vehicle_id vehicle_pos
                             (record_clone next_message w) with
                     | None => None
                     | Some (true, w') => Some (true, w')
                     | Some (false, w') => relay rest w'
                     end
               end)
              (find_vehicles_in_range env current_position current_vehicle_id) w
        end
  end.

(** The relay depth is bounded by the hop limit. *)
Definition propagate_v2v_message (env : Env) (message : V2VMessage)
  (current_vehicle_id : string) (current_position : pos) (w : world)
  : option (bool * world) :=
  propagate (S (MAX_HOP_COUNT - hop_count message)) env message
            current_vehicle_id current_position w.

(** [broadcast_emergency_alert]; [mid] is the fresh message id. *)
Definition broadcast_emergency_alert (env : Env) (mid : string) (source_vehicle_id : string)
  (loc : pos) (collision_pair : string * string) (acc_id : string) (w : world)
  : option (bool * world) :=
  match get_vehicle_position env source_vehicle_id with
  | None => Some (false, w)
  | Some source_position =>
      let message :=
        new_message env mid source_vehicle_id "EMERGENCY"
          {| accident_id := acc_id; involved := collision_pair; accident_location := loc;
             severity := "HIGH"; timestamp := getTime env |} loc in
      propagate_v2v_message env message source_vehicle_id source_position
        {| edge_nodes := edge_nodes w;
           message_history := PyDict.set mid [message] (message_history w);
           hop_count_stats := hop_count_stats w |}
  end.

(** *** Collision detection (run_simulation.py, lines 313-333;
        accident.py, lines 124-142) *)

Record registry : Type := mkRegistry {
  reported_collisions : gset (string * string);
  total_accidents : nat
}.









End Sim.

(** ** best_erv.py: the genetic ambulance selection *)

Module GA.

Definition POP_SIZE : nat := 20.
Definition GENERATIONS : nat := 30.
Definition TOURNAMENT_K : nat := 3.
Definition CROSSOVER_RATE : Q := 8 # 10.
Definition MUTATION_RATE : Q := 1 # 10.

Definition ambulance_readiness : list (string * Q) :=
  [("ambulance0", 85%Q); ("ambulance1", 70%Q); ("ambulance2", 90%Q)].

Definition ambulance_routes : list (string * string) :=
  [("ambulance0", "routeAmbulance0"); ("ambulance1", "routeAmbulance1");
   ("ambulance2", "routeAmbulance2")].

Definition ambulance_anchor_edges : list (string * string) :=
  [("ambulance0", "A_B"); ("ambulance1", "D_G"); ("ambulance2", "H_I")].

(** [s[0]] and [s[-1]] *)
Definition first_char (s : string) : option Ascii.ascii := String.get 0 s.
Definition last_char (s : string) : option Ascii.ascii :=
  String.get (String.length s - 1) s.

Definition char_eqb (a b : option Ascii.ascii) : bool := bool_decide (a = b).

(** The accident-edge bonus (best_erv.py, lines 57-63). *)
Definition edge_bonus (individual : string) (accident_edge : option string) : res Q :=
  match accident_edge with
  | None => Ok 0%Q
  | Some "" => Ok 0%Q
  | Some acc =>
      match PyDict.get individual ambulance_anchor_edges with
      | None => Raise TypeError
      | Some anchor =>
          if String.eqb anchor acc then Ok 1%Q
          else
            match first_char anchor with
            | None => Raise IndexError
            | Some _ =>
                if char_eqb (first_char anchor) (first_char acc)
                   || char_eqb (last_char anchor) (last_char acc)
                then Ok (1 # 2)%Q
                else Ok 0%Q
            end
      end
  end.

(** [congestion_val]: the fuzzy estimate of the ambulance's road, [5.0]
    when either query raises. *)
Definition congestion_val (env : Env) (individual : string) : Q :=
  match getRoadID env individual with
  | Some edge_id =>
      match get_fuzzy_congestion env edge_id with
      | Some c => c
      | None => 5%Q
      end
  | None => 5%Q
  end.

(** [math.sqrt((x - accident_x) ** 2 + (y - accident_y) ** 2)] *)
Definition distance (env : Env) (p : pos) (accident_x accident_y : Q) : Q :=
  math_sqrt env (dist2 p (accident_x, accident_y)).

Definition SENTINEL : Q := - (9999).

Definition fitness (env : Env) (individual : string) (accident_x accident_y : Q)
  (positions : list (string * pos)) (accident_edge : option string) : res Q :=
  match PyDict.get individual positions with
  | None => Ok SENTINEL
  | Some p =>
      let dist := distance env p accident_x accident_y in
      let readiness := PyDict.get_default individual 50%Q ambulance_readiness in
      let congestion := congestion_val env individual in
      let readiness_norm := (readiness / 100)%Q in
      let distance_penalty := (dist / 200)%Q in
      let congestion_penalty := (congestion / 10)%Q in
      do bonus <- edge_bonus individual accident_edge;
      Ok (readiness_norm - distance_penalty - congestion_penalty + bonus)%Q
  end.

(** [{ind: f(ind) for ind in population}] *)
Fixpoint fitness_table (f : string -> res Q) (population : list string)
  (table : list (string * Q)) : res (list (string * Q)) :=
  match population with
  | [] => Ok table
  | ind :: rest =>
      do score <- f ind;
      fitness_table f rest (PyDict.set ind score table)
  end.

(** [fitnesses[k]] *)
Definition lookup (k : string) (table : list (string * Q)) : res Q :=
  match PyDict.get k table with
  | Some v => Ok v
  | None => Raise KeyError
  end.

(** [for _ in range(TOURNAMENT_K - 1): ...] *)
Fixpoint challenge (rounds : nat) (pop : list string) (fitnesses : list (string * Q))
  (best : string) : M string :=
  match rounds with
  | O => ret best
  | S rounds' =>
      run challenger <- random_choice pop ;
      run fc <- lift (lookup challenger fitnesses) ;
      run fb <- lift (lookup best fitnesses) ;
      challenge rounds' pop fitnesses (if Qltb fb fc then challenger else best)
  end.

Definition tournament_selection (pop : list string) (fitnesses : list (string * Q))
  : M string :=
  run best <- random_choice pop ;
  challenge (TOURNAMENT_K - 1) pop fitnesses best.

Definition crossover (parent1 parent2 : string) : M string :=
  run r <- random_random ;
  if Qltb r CROSSOVER_RATE then random_choice [parent1; parent2] else ret parent1.

Definition mutate (individual : string) : M string :=
  run r <- random_random ;
  if Qltb r MUTATION_RATE then random_choice (PyDict.keys ambulance_readiness)
  else ret individual.

(** [while len(new_population) < POP_SIZE: ...]: one child per round, so
    [todo] rounds when [todo] children are missing. *)
Fixpoint breed (todo : nat) (population : list string) (fitnesses : list (string * Q))
  (new_population : list string) : M (list string) :=
  match todo with
  | O => ret new_population
  | S todo' =>
      run p1 <- tournament_selection population fitnesses ;
      run p2 <- tournament_selection population fitnesses ;
      run child <- crossover p1 p2 ;
      run child <- mutate child ;
      breed todo' population fitnesses (new_population ++ [child])
  end.

(** [for _ in range(GENERATIONS): ...] *)
Fixpoint generations (n : nat) (f : string -> res Q) (population : list string)
  : M (list string) :=
  match n with
  | O => ret population
  | S n' =>
      run fitnesses <- lift (fitness_table f population []) ;
      run new_population <- breed POP_SIZE population fitnesses [] ;
      generations n' f new_population
  end.

(** [[random.choice(keys) for _ in range(POP_SIZE)]] *)
Fixpoint initial_population (n : nat) : M (list string) :=
  match n with
  | O => ret []
  | S n' =>
      run ind <- random_choice (PyDict.keys ambulance_readiness) ;
      run rest <- initial_population n' ;
      ret (ind :: rest)
  end.

(** The population after the last generation. *)
Definition evolve (f : string -> res Q) : M (list string) :=
  run population <- initial_population POP_SIZE ;
  generations GENERATIONS f population.

(** [max(table, key=table.get)]: the first key with the greatest value. *)
Definition argmax (table : list (string * Q)) : res string :=
  match table with
  | [] => Raise ValueError
  | first :: rest =>
      Ok (fst (fold_left (fun best kv => if Qltb (snd best) (snd kv) then kv else best)
                         rest first))
  end.

Definition select_best_ambulance (env : Env) (accident_x accident_y : Q)
  (positions : list (string * pos)) (accident_edge : option string) : M string :=
  let f ind := fitness env ind accident_x accident_y positions accident_edge in
  run population <- evolve f ;
  run final_fitnesses <- lift (fitness_table f population []) ;
  run best <- lift (argmax final_fitnesses) ;
  match PyDict.get best ambulance_routes with
  | Some _ => ret best
  | None => raise KeyError
  end.

(** The population that [select_best_ambulance] takes its answer from;
    empty when the search raised. *)
Definition final_population (env : Env) (accident_x accident_y : Q)
  (positions : list (string * pos)) (accident_edge : option string) (g : Rng)
  : list string :=
  match fst (evolve (fun ind => fitness env ind accident_x accident_y positions accident_edge)
                    g) with
  | Ok population => population
  | Raise _ => []
  end.

End GA.

(** ** The fitness score in the specification's words *)

Module GASpec.

(** A segment id [X_Y] names its endpoint nodes by its first and last
    characters; two segments share an endpoint node when one of the one's
    is one of the other's. *)
Definition shares_endpoint (a b : string) : bool :=
  GA.char_eqb (GA.first_char a) (GA.first_char b)
  || GA.char_eqb (GA.first_char a) (GA.last_char b)
  || GA.char_eqb (GA.last_char a) (GA.first_char b)
  || GA.char_eqb (GA.last_char a) (GA.last_char b).

(** [edgeBonus]: 1 when the anchor segment is the accident segment, 1/2
    when the two share an endpoint node, 0 otherwise. *)
Definition edge_bonus (anchor : string) (accident_edge : option string) : Q :=
  match accident_edge with
  | Some acc =>
      if String.eqb anchor acc then 1%Q
      else if shares_endpoint anchor acc then (1 # 2)%Q
      else 0%Q
  | None => 0%Q
  end.

(** [readiness(a)/100 - distance(a, accident)/200 - congestion(segment(a))/10
    + edgeBonus], and the sentinel for an untracked ambulance. *)
Definition fitness (env : Env) (a anchor : string) (accident_x accident_y : Q)
  (positions : list (string * pos)) (accident_edge : option string) : Q :=
  match PyDict.get a positions with
  | None => (- (9999))%Q
  | Some p =>
      (PyDict.get_default a 50 GA.ambulance_readiness / 100
       - GA.distance env p accident_x accident_y / 200
       - GA.congestion_val env a / 10
       + edge_bonus anchor accident_edge)%Q
  end.



End GASpec.

(** ** Concrete scenarios *)

Module Sample.

(** A square root to three decimals, for the scenarios. *)
Definition sqrt_milli (q : Q) : Q :=
  inject_Z (Z.sqrt (Qnum (q * 1000000) / Zpos (Qden (q * 1000000)))) / 1000.

(** The road graph of run_simulation.py. *)
Definition grid : graph_t :=
  [("A", [("B", 100%Q); ("D", 100%Q)]);
   ("B", [("A", 100%Q); ("C", 100%Q); ("E", 100%Q)]);
   ("C", [("B", 100%Q); ("F", 100%Q)]);
   ("D", [("A", 100%Q); ("E", 100%Q); ("G", 100%Q)]);
   ("E", [("B", 100%Q); ("D", 100%Q); ("F", 100%Q); ("H", 100%Q)]);
   ("F", [("C", 100%Q); ("E", 100%Q); ("I", 100%Q)]);
   ("G", [("D", 100%Q); ("H", 100%Q)]);
   ("H", [("G", 100%Q); ("E", 100%Q); ("I", 100%Q)]);
   ("I", [("F", 100%Q); ("H", 100%Q)])].

(** The line [A - B - C] with unit weights. *)
Definition line : graph_t :=
  [("A", [("B", 1%Q)]); ("B", [("A", 1%Q); ("C", 1%Q)]); ("C", [("B", 1%Q)])].

(** A generator whose every draw reads as [1/2] and as the index [i]. *)
Definition rng_const (i : nat) : Rng :=
  {| rnd_uniform := fun _ => 1 # 2; rnd_index := fun _ _ => i; rnd_pos := 0 |}.

(** A vehicle on [A] bound for [C] along [A, B, C]. *)
Definition veh_abc : Vehicle.t :=
  {| Vehicle.veh_id := "veh0"; Vehicle.destination := "C";
     Vehicle.current_edge := Some "A";
     Vehicle.route := [Some "A"; Some "B"; Some "C"];
     Vehicle.accidents_received := ∅ |}.

(** A vehicle on [A] bound for [C] whose route is the single segment [B]. *)
Definition veh_b : Vehicle.t :=
  {| Vehicle.veh_id := "veh0"; Vehicle.destination := "C";
     Vehicle.current_edge := Some "A";
     Vehicle.route := [Some "B"];
     Vehicle.accidents_received := ∅ |}.

(** Four vehicles in a row, 150 apart, far from every edge node. *)
Definition env_row : Env :=
  {| getIDList := ["veh0"; "veh1"; "veh2"; "veh3"];
     getPosition := fun v =>
       PyDict.get v [("veh0", (1000, 1000)%Q); ("veh1", (1150, 1000)%Q);
                     ("veh2", (1300, 1000)%Q); ("veh3", (1450, 1000)%Q)];
     getRoadID := fun _ => Some "A";
     getRoute := fun _ => Some ["A"; "B"; "C"];
     setRoute_accepts := fun _ _ => true;
     getTime := 10;
     get_fuzzy_congestion := fun _ => Some 2%Q;
     math_sqrt := sqrt_milli |}.

Definition world0 : Sim.world :=
  {| Sim.edge_nodes := Sim.initialize_edge_nodes; Sim.message_history := [];
     Sim.hop_count_stats := [] |}.

(** One vehicle, [veh5], at the position of [EdgeNode_A], on [B] with route
    [B, A, D]; the simulator rejects every [setRoute]. *)
Definition env_reject : Env :=
  {| getIDList := ["veh5"];
     getPosition := fun v => PyDict.get v [("veh5", (30, 20)%Q)];
     getRoadID := fun _ => Some "B";
     getRoute := fun _ => Some ["B"; "A"; "D"];
     setRoute_accepts := fun _ _ => false;
     getTime := 10;
     get_fuzzy_congestion := fun _ => Some 2%Q;
     math_sqrt := sqrt_milli |}.

Definition veh5 : Vehicle.t := Vehicle.init "veh5" "D".

(** The broadcaster of run_simulation.py after the accident [ACC_001] of
    [veh0] and [veh1] near [EdgeNode_A] was registered at time [0]; the call
    there passes the source vehicle's id, a string, as the involved
    vehicles, so the stored set holds its characters. *)
Definition cen1 : CEN.t :=
  CEN.register "ACC_001" (31, 21)%Q 0 ["v"; "e"; "h"; "0"]
    (CEN.init 10 Sim.initialize_edge_nodes).


Definition registry0 : Sim.registry :=
  {| Sim.reported_collisions := ∅; Sim.total_accidents := 0 |}.

End Sample.

(** ** The vocabulary of the properties *)

Module DetectProps.
Import Sim.






End DetectProps.

Module ListenProps.
Import Vehicle.

Definition is_recompute (acc : string) (ev : event) : bool :=
  match ev with
  | EvRecompute _ a => String.eqb a acc
  | _ => false
  end.

Definition is_set_route (acc : string) (ev : event) : bool :=
  match ev with
  | EvSetRoute _ a _ => String.eqb a acc
  | _ => false
  end.

(** How often the log shows a route recomputation, and a [setRoute]
    command, for an accident. *)
Definition recomputes (acc : string) (lg : list event) : nat :=
  length (List.filter (is_recompute acc) lg).

Definition set_routes (acc : string) (lg : list event) : nat :=
  length (List.filter (is_set_route acc) lg).

(** The log shows each accident at most once, and only accidents that the
    vehicle has marked as received. *)
Definition at_most_once (v : t) (lg : list event) : Prop :=
  forall acc,
    (recomputes acc lg <= 1 /\ set_routes acc lg <= 1)%nat
    /\ (acc ∉ accidents_received v -> recomputes acc lg = 0%nat /\ set_routes acc lg = 0%nat).

End ListenProps.

Module AcoProps.
Import Vehicle.

(** Every pheromone value is positive. *)
Definition positive (ph : list (edge * Q)) : Prop :=
  forall kv, In kv ph -> (0 < snd kv)%Q.

(** No edge of the graph has cost zero. *)
Definition costs_nonzero (graph : graph_t) : Prop :=
  forall k nbrs n c, In (k, nbrs) graph -> In (n, c) nbrs -> Qeqb c 0 = false.

(** Every draw read as [random()] is at most one. *)
Definition draws_at_most_one (g : Rng) : Prop :=
  forall i, (rnd_uniform g i <= 1)%Q.

(** The colony's pheromones are positive and its best route, if any, is not
    empty. *)
Definition sound (col : colony) : Prop :=
  positive (pheromone_of col)
  /\ (forall r, best_route col = Some r -> r <> []).

End AcoProps.

Module BroadcastProps.
Import CEN.

(** The accidents after a sweep: the due ones with their time reset. *)
Definition reset_due (c : t) (now : Q) (items : list (string * accident))
  : list (string * accident) :=
  map (fun kv => (fst kv, if due c now (snd kv) then with_last_time now (snd kv) else snd kv))
      items.

End BroadcastProps.

Module SelectProps.
Import GA.



End SelectProps.

(** * Further parts of the program *)

From Stdlib Require Import Sorted.
From Stdlib Require Import DecimalString DecimalNat.

(** ** run_simulation.py: registering a tick's collisions (lines 335-361) *)

Module Loop.











End Loop.

(** ** route_generator.py: the routes of the network *)

Module RouteGen.

Definition nodes : list string := ["A"; "B"; "C"; "D"; "E"; "F"; "G"; "H"; "I"].

Definition edges : list (string * list string) :=
  [("A", ["B"; "D"]);
   ("B", ["A"; "C"; "E"]);
   ("C", ["B"; "F"]);
   ("D", ["A"; "E"; "G"]);
   ("E", ["B"; "D"; "F"; "H"]);
   ("F", ["C"; "E"; "I"]);
   ("G", ["D"; "H"]);
   ("H", ["G"; "E"; "I"]);
   ("I", ["F"; "H"])].

Definition boundary_nodes : list string := ["A"; "B"; "C"; "D"; "F"; "G"; "H"; "I"].

(** [find_routes(start, path=None, max_depth=6)] (lines 42-59).  The
    recursion of the source is on the length of the path; [fuel] bounds it,
    and the outer [None] means the bound was too small.  [edges[start]]
    raises [KeyError] for a node without an entry. *)
Fixpoint find_routes_fuel (fuel : nat) (start : string) (path : option (list string))
  (max_depth : Z) : option (res (list (list string))) :=
  match fuel with
  | O => None
  | S fuel' =>
      let path := match path with
                  | None => [start]
                  | Some path => path ++ [start]
                  end in
      let routes :=
        if existsb (String.eqb start) boundary_nodes && (1 <? length path)%nat
        then [path] else [] in
      if (max_depth <=? Z.of_nat (length path))%Z then Some (Ok routes)
      else
        match PyDict.get start edges with
        | None => Some (Raise KeyError)
        | Some neighbors =>
            (fix explore (neighbors : list string) (routes : list (list string))
               : option (res (list (list string))) :=
               match neighbors with
               | [] => Some (Ok routes)
               | neighbor :: rest =>
                   if existsb (String.eqb neighbor) path then explore rest routes
                   else
                     match find_routes_fuel fuel' neighbor (Some path) max_depth with
                     | None => None
                     | Some (Raise e) => Some (Raise e)
                     | Some (Ok found) => explore rest (routes ++ found)
                     end
               end) neighbors routes
        end
  end.

(** A call extends its path by one node and stops at [max_depth] nodes. *)
Definition find_routes (start : string) (path : option (list string)) (max_depth : Z)
  : option (res (list (list string))) :=
  find_routes_fuel (S (Z.to_nat max_depth)) start path max_depth.

(** [for node in nodes: all_routes.extend(find_routes(node))] (lines 62-64) *)
Fixpoint all_routes_from (starts : list string) (all_routes : list (list string))
  : option (res (list (list string))) :=
  match starts with
  | [] => Some (Ok all_routes)
  | node :: rest =>
      match find_routes node None 6 with
      | None => None
      | Some (Raise e) => Some (Raise e)
      | Some (Ok found) => all_routes_from rest (all_routes ++ found)
      end
  end.

Definition all_routes : option (res (list (list string))) := all_routes_from nodes [].

End RouteGen.

(** ** The vocabulary of the further properties *)

Module GAProps.
Import GA.

(** The identifiers the search draws from. *)
Definition table_ids : list string := PyDict.keys ambulance_readiness.

(** A population of identifiers of the table. *)
Definition of_table (population : list string) : Prop :=
  forall x, In x population -> In x table_ids.

(** Every entry of a table holds what the fitness function returns for its
    key. *)
Definition scored_by (f : string -> res Q) (table : list (string * Q)) : Prop :=
  forall kv, In kv table -> f (fst kv) = Ok (snd kv).

End GAProps.

Module TrailProps.
Import Vehicle.

(** The nodes an ant has visited, as the hop loop builds them: the start,
    then at each hop a neighbour of the last node that is neither the blocked
    node nor visited already. *)
Inductive trail (graph : graph_t) (blocked : edge) (start : edge) : list edge -> Prop :=
| trail_start : trail graph blocked start [start]
| trail_step (vis : list edge) (n : string) (c : Q) :
    trail graph blocked start vis ->
    In (n, c) (graph_get (List.last vis None) graph) ->
    Some n <> blocked ->
    ~ In (Some n) vis ->
    trail graph blocked start (vis ++ [Some n]).


(** Every pheromone value equals one. *)
Definition all_one (ph : list (edge * Q)) : Prop :=
  forall kv, In kv ph -> (snd kv == 1)%Q.

(** The colony [aco_reroute] starts from. *)
Definition initial_colony (graph : graph_t) : colony :=
  {| pheromone_of := map (fun kv => (Some (fst kv), 1%Q)) graph;
     best_route := None; best_cost := None; carried_pick := None |}.

(** The best route of a colony is a trail that ends on the destination. *)
Definition found (graph : graph_t) (blocked : edge) (v : t) (col : colony) : Prop :=
  forall r, best_route col = Some r ->
    trail graph blocked (current_edge v) r
    /\ List.last r None = Some (destination v)
    /\ (length r <= MAX_HOPS + 1)%nat.

End TrailProps.

Module HearProps.
Import Vehicle.


End HearProps.

Module SweepProps.
Import CEN.

(** The broadcaster after a sweep: [broadcast] writes the new broadcast
    times into its own table. *)
Definition after_broadcast (c : t) (s : swept) : t :=
  {| interval := interval c; accidents := accidents_after s; edge_nodes := edge_nodes c |}.


End SweepProps.

Module RelayProps.
Import Sim.

(** Every message kept in the history, under whatever id. *)
Definition recorded (w : world) : list V2VMessage :=
  concat (map snd (message_history w)).

(** No recorded message names a node twice in its propagation path. *)
Definition paths_simple (w : world) : Prop :=
  forall m, In m (recorded w) -> NoDup (propagation_path m).

(** [m'] carries the alert of [m]: same id, type, payload and origin. *)
Definition same_alert (m m' : V2VMessage) : Prop :=
  message_id m' = message_id m
  /\ message_type m' = message_type m
  /\ message_payload m' = message_payload m
  /\ origin_location m' = origin_location m.


(** One edge node, which had not cached the id of [m], received a message
    carrying the alert of [m]; no other edge node changed. *)
Definition delivered_once (env : Env) (m : V2VMessage) (w w' : world) : Prop :=
  exists edge_id node m',
    PyDict.get edge_id (edge_nodes w) = Some node
    /\ message_id m ∉ message_cache node
    /\ same_alert m m'
    /\ edge_nodes w' = PyDict.set edge_id (receive env m' node) (edge_nodes w).

End RelayProps.

Module AlarmProps.
Import Sim.


End AlarmProps.

Module CountProps.
Import Sim.

(** Every edge node's message counter is the number of message ids it has
    cached, and it holds no more alerts than it counted messages. *)
Definition counted (w : world) : Prop :=
  forall edge_id node, In (edge_id, node) (edge_nodes w) ->
    total_messages_received node = size (message_cache node)
    /\ (length (accident_alerts_received node) <= total_messages_received node)%nat.

End CountProps.

Module RouteProps.
Import RouteGen.

(** Each node of the list is followed by one of its neighbours in [edges]. *)
Fixpoint linked (r : list string) : Prop :=
  match r with
  | a :: (b :: _) as rest =>
      (exists neighbors, PyDict.get a edges = Some neighbors /\ In b neighbors)
      /\ linked rest
  | _ => True
  end.

(** A route that starts with the nodes of [path] followed by [start], walks
    along edges from [start] on, visits no node twice, ends at a boundary
    node, has at least two and at most [max_depth] nodes. *)
Definition continues (path : list string) (start : string) (max_depth : Z)
  (r : list string) : Prop :=
  exists ext,
    r = path ++ start :: ext
    /\ linked (start :: ext)
    /\ NoDup r
    /\ (exists b, last r = Some b /\ In b boundary_nodes)
    /\ (2 <= length r)%nat
    /\ (Z.of_nat (length r) <= max_depth)%Z.

(** Every neighbour named in [edges] has an entry of its own. *)
Definition closed : Prop :=
  forall k neighbors n,
    PyDict.get k edges = Some neighbors -> In n neighbors ->
    exists neighbors', PyDict.get n edges = Some neighbors'.

End RouteProps.
(** * Properties *)

(** ** Dictionaries *)

Section DictFacts.
Context {K V : Type} `{EqDecision K}.

Lemma get_set_eq (k : K) (v : V) (d : list (K * V)) :
  PyDict.get k (PyDict.set k v d) = Some v.
Proof.
  induction d as [|[k' v'] d IH]; simpl.
  - destruct (decide (k = k)); congruence.
  - destruct (decide (k = k')) as [->|Hne]; simpl.
    + destruct (decide (k' = k')); congruence.
    + destruct (decide (k = k')); [contradiction | exact IH].
Qed.

Lemma get_set_ne (k k' : K) (v : V) (d : list (K * V)) :
  k' <> k -> PyDict.get k' (PyDict.set k v d) = PyDict.get k' d.
Proof.
  intros Hne. induction d as [|[k0 v0] d IH]; simpl.
  - destruct (decide (k' = k)); [contradiction | reflexivity].
  - destruct (decide (k = k0)) as [->|Hk]; simpl.
    + destruct (decide (k' = k0)); [contradiction | reflexivity].
    + destruct (decide (k' = k0)); [reflexivity | exact IH].
Qed.

Lemma keys_set_present (k : K) (v : V) (d : list (K * V)) :
  PyDict.mem k d = true -> PyDict.keys (PyDict.set k v d) = PyDict.keys d.
Proof.
  unfold PyDict.mem, PyDict.keys.
  induction d as [|[k0 v0] d IH]; simpl; [discriminate|].
  destruct (decide (k = k0)) as [->|Hk]; simpl; [reflexivity|].
  intros Hm. f_equal. apply IH, Hm.
Qed.

End DictFacts.

(** ** C10: registering an accident id again *)

(** C10.  When [register] is called with an accident id that is already
    registered, the record stored under that id becomes the new one
    (location, time, registering node and name, involved set), no entry is
    added, and the record of every other id is the one it was. *)
Theorem register_again_replaces_record
  (c : CEN.t) (id : string) (loc : pos) (sim_time : Q) (involved : list string) :
  PyDict.mem id (CEN.accidents c) = true ->
  let c' := CEN.register id loc sim_time involved c in
  PyDict.get id (CEN.accidents c')
    = Some {| location := loc; last_time := sim_time;
              registered_by_edge := CEN.get_nearest_edge_node c loc;
              registered_by_name := CEN.cen_name (CEN.get_nearest_edge_node c loc);
              vehicles_involved := list_to_set involved |}
  /\ PyDict.keys (CEN.accidents c') = PyDict.keys (CEN.accidents c)
  /\ (forall id', id' <> id ->
        PyDict.get id' (CEN.accidents c') = PyDict.get id' (CEN.accidents c))
  /\ CEN.edge_nodes c' = CEN.edge_nodes c
  /\ CEN.interval c' = CEN.interval c.
Proof.
  intros Hmem c'. subst c'. unfold CEN.register; simpl.
  repeat split.
  - apply get_set_eq.
  - apply keys_set_present, Hmem.
  - intros id' Hne. apply get_set_ne, Hne.
Qed.
Lemma register_again_witness :
  PyDict.mem "ACC_001" (CEN.accidents Sample.cen1) = true
  /\ PyDict.get "ACC_001"
       (CEN.accidents (CEN.register "ACC_001" (190, 170)%Q 42 ["veh7"; "veh8"] Sample.cen1))
     = Some {| location := (190, 170)%Q; last_time := 42;
               registered_by_edge := Some "EdgeNode_C";
               registered_by_name := Some "EdgeCEN_C";
               vehicles_involved := list_to_set ["veh7"; "veh8"] |}.
Proof.
  split; [reflexivity|].
  exact (proj1 (register_again_replaces_record Sample.cen1 "ACC_001" (190, 170)%Q 42
                  ["veh7"; "veh8"] eq_refl)).
Defined.

(** ** C5: collision detection *)

Section FoldFacts.
Context {S A : Type} (f : S -> A -> S).



End FoldFacts.

Module DetectFacts.
Import Sim DetectProps.
















End DetectFacts.

Module RunFacts.
Import Sim DetectProps DetectFacts.


End RunFacts.


(** ** C6: a vehicle reacts to an accident at most once *)

Module ListenFacts.
Import Vehicle ListenProps.

Lemma recomputes_app acc l1 l2 :
  recomputes acc (l1 ++ l2) = (recomputes acc l1 + recomputes acc l2)%nat.
Proof. unfold recomputes. rewrite List.filter_app, length_app. reflexivity. Qed.

Lemma set_routes_app acc l1 l2 :
  set_routes acc (l1 ++ l2) = (set_routes acc l1 + set_routes acc l2)%nat.
Proof. unfold set_routes. rewrite List.filter_app, length_app. reflexivity. Qed.

(** What one reaction adds to the log, whatever branch it takes. *)
Lemma react_log env graph acc_id data v lg g :
  exists tail,
    log (fst (react env graph acc_id data v lg g)) = lg ++ tail
    /\ (forall acc, acc <> acc_id ->
          recomputes acc tail = 0%nat /\ set_routes acc tail = 0%nat)
    /\ (recomputes acc_id tail <= 1 /\ set_routes acc_id tail <= 1)%nat
    /\ accidents_received (vehicle (fst (react env graph acc_id data v lg g)))
       = accidents_received v ∪ {[ acc_id ]}
    /\ veh_id (vehicle (fst (react env graph acc_id data v lg g))) = veh_id v.
Proof.
  unfold react.
  assert (Hne : forall acc, acc <> acc_id -> String.eqb acc_id acc = false).
  { intros acc Hacc. apply String.eqb_neq. congruence. }
  destruct (aco_reroute _ graph _ g) as [[new_route|e] g']; simpl.
  - destruct (negb (route_eqb new_route _)); simpl.
    + destruct (setRoute_accepts env (veh_id v) new_route); simpl.
      * exists [EvReceived (veh_id v) acc_id; EvRecompute (veh_id v) acc_id;
                EvSetRoute (veh_id v) acc_id new_route].
        split; [rewrite <- !app_assoc; reflexivity|]. split; [|split; [|split; reflexivity]].
        -- intros acc Hacc. unfold recomputes, set_routes, List.filter, is_recompute, is_set_route.
           rewrite (Hne acc Hacc). split; reflexivity.
        -- unfold recomputes, set_routes, List.filter, is_recompute, is_set_route.
           destruct (String.eqb acc_id acc_id); simpl; lia.
      * exists [EvReceived (veh_id v) acc_id; EvRecompute (veh_id v) acc_id;
                EvSetRoute (veh_id v) acc_id new_route; EvRerouteFailed (veh_id v) acc_id].
        split; [rewrite <- !app_assoc; reflexivity|]. split; [|split; [|split; reflexivity]].
        -- intros acc Hacc. unfold recomputes, set_routes, List.filter, is_recompute, is_set_route.
           rewrite (Hne acc Hacc). split; reflexivity.
        -- unfold recomputes, set_routes, List.filter, is_recompute, is_set_route.
           destruct (String.eqb acc_id acc_id); simpl; lia.
    + exists [EvReceived (veh_id v) acc_id; EvRecompute (veh_id v) acc_id].
      split; [rewrite <- !app_assoc; reflexivity|]. split; [|split; [|split; reflexivity]].
      * intros acc Hacc. unfold recomputes, set_routes, List.filter, is_recompute, is_set_route.
        rewrite (Hne acc Hacc). split; reflexivity.
      * unfold recomputes, set_routes, List.filter, is_recompute, is_set_route.
        destruct (String.eqb acc_id acc_id); simpl; lia.
  - exists [EvReceived (veh_id v) acc_id; EvRecompute (veh_id v) acc_id].
    split; [rewrite <- !app_assoc; reflexivity|]. split; [|split; [|split; reflexivity]].
    + intros acc Hacc. unfold recomputes, set_routes, List.filter, is_recompute, is_set_route.
      rewrite (Hne acc Hacc). split; reflexivity.
    + unfold recomputes, set_routes, List.filter, is_recompute, is_set_route.
      destruct (String.eqb acc_id acc_id); simpl; lia.
Qed.

Lemma react_at_most_once env graph acc_id data v lg g :
  acc_id ∉ accidents_received v ->
  at_most_once v lg ->
  at_most_once (vehicle (fst (react env graph acc_id data v lg g)))
               (log (fst (react env graph acc_id data v lg g))).
Proof.
  intros Hnew Hinv.
  destruct (react_log env graph acc_id data v lg g)
    as (tail & Hlog & Hother & Hthis & Hrecv & _).
  rewrite Hlog. intros acc. rewrite Hrecv, recomputes_app, set_routes_app.
  destruct (Hinv acc) as [[Hr Hs] Hzero].
  destruct (decide (acc = acc_id)) as [->|Hne].
  - destruct (Hzero Hnew) as [-> ->]. split; [simpl; lia|].
    intros Hout. exfalso. apply Hout. set_solver.
  - destruct (Hother acc Hne) as [-> ->]. rewrite !Nat.add_0_r.
    split; [split; assumption|].
    intros Hout. apply Hzero. set_solver.
Qed.

Lemma react_received_mono env graph acc_id data v lg g :
  accidents_received v ⊆ accidents_received (vehicle (fst (react env graph acc_id data v lg g))).
Proof.
  destruct (react_log env graph acc_id data v lg g) as (tail & _ & _ & _ & Hrecv & _).
  rewrite Hrecv. set_solver.
Qed.

Lemma listen_loop_invariant env cen_positions graph comm_range items :
  forall v lg g,
    at_most_once v lg ->
    at_most_once (vehicle (fst (listen_loop env cen_positions graph comm_range items v lg g)))
                 (log (fst (listen_loop env cen_positions graph comm_range items v lg g)))
    /\ accidents_received v
       ⊆ accidents_received
           (vehicle (fst (listen_loop env cen_positions graph comm_range items v lg g))).
Proof.
  induction items as [|[acc_id data] rest IH]; intros v lg g Hinv; simpl.
  - split; [exact Hinv | set_solver].
  - destruct (bool_decide (acc_id ∈ accidents_received v)) eqn:Hseen; [apply IH, Hinv|].
    apply bool_decide_eq_false in Hseen.
    destruct (registered_by_edge data) as [broadcasting_edge|]; [|apply IH, Hinv].
    destruct (PyDict.get broadcasting_edge cen_positions) as [cen_pos|]; [|apply IH, Hinv].
    destruct (cen_in_range env v cen_pos comm_range); [|apply IH, Hinv].
    pose proof (react_at_most_once env graph acc_id data v lg g Hseen Hinv) as Hafter.
    pose proof (react_received_mono env graph acc_id data v lg g) as Hmono.
    destruct (react env graph acc_id data v lg g) as [[v' lg' [e|]] g']; simpl in *.
    + split; assumption.
    + destruct (IH v' lg' g' Hafter) as [Hinv' Hmono'].
      split; [exact Hinv'|]. etransitivity; eassumption.
Qed.

Lemma update_position_received env v :
  accidents_received (update_position env v) = accidents_received v.
Proof.
  unfold update_position.
  destruct (getRoadID env (veh_id v)); [|reflexivity].
  destruct (getRoute env (veh_id v)); reflexivity.
Qed.

Lemma listen_and_reroute_invariant env accidents cen_positions graph comm_range v lg g :
  at_most_once v lg ->
  at_most_once
    (vehicle (fst (listen_and_reroute env accidents cen_positions graph comm_range v lg g)))
    (log (fst (listen_and_reroute env accidents cen_positions graph comm_range v lg g)))
  /\ accidents_received v
     ⊆ accidents_received
         (vehicle (fst (listen_and_reroute env accidents cen_positions graph comm_range
                          v lg g))).
Proof.
  intros Hinv. unfold listen_and_reroute.
  assert (Hinv0 : at_most_once (update_position env v) lg).
  { intros acc. rewrite update_position_received. apply Hinv. }
  destruct (getPosition env (veh_id (update_position env v))); simpl.
  - destruct (listen_loop_invariant env cen_positions graph comm_range accidents
                (update_position env v) lg g Hinv0) as [H1 H2].
    split; [exact H1|]. rewrite update_position_received in H2. exact H2.
  - split; [exact Hinv0|]. rewrite update_position_received. set_solver.
Qed.

Lemma listen_calls_invariant calls :
  forall v lg g,
    at_most_once v lg ->
    at_most_once (fst (fst (listen_calls calls v lg g)))
                 (snd (fst (listen_calls calls v lg g)))
    /\ accidents_received v ⊆ accidents_received (fst (fst (listen_calls calls v lg g))).
Proof.
  induction calls as [|c rest IH]; intros v lg g Hinv; simpl.
  - split; [exact Hinv | set_solver].
  - destruct (listen_and_reroute_invariant (call_env c) (call_accidents c)
                (call_cen_positions c) (call_graph c) (call_comm_range c) v lg g Hinv)
      as [Hinv' Hmono].
    destruct (listen_and_reroute _ _ _ _ _ v lg g) as [o g']; simpl in *.
    destruct (IH (vehicle o) (log o) g' Hinv') as [Hinv'' Hmono'].
    split; [exact Hinv''|]. etransitivity; eassumption.
Qed.

Lemma listen_loop_received_mono env cen_positions graph comm_range items :
  forall v lg g,
    accidents_received v
      ⊆ accidents_received
          (vehicle (fst (listen_loop env cen_positions graph comm_range items v lg g))).
Proof.
  induction items as [|[acc_id data] rest IH]; intros v lg g; simpl; [set_solver|].
  destruct (bool_decide (acc_id ∈ accidents_received v)); [apply IH|].
  destruct (registered_by_edge data) as [broadcasting_edge|]; [|apply IH].
  destruct (PyDict.get broadcasting_edge cen_positions) as [cen_pos|]; [|apply IH].
  destruct (cen_in_range env v cen_pos comm_range); [|apply IH].
  pose proof (react_received_mono env graph acc_id data v lg g) as Hmono.
  destruct (react env graph acc_id data v lg g) as [[v' lg' [e|]] g'];
    simpl in *; [exact Hmono|].
  etransitivity; [exact Hmono|apply IH].
Qed.

Lemma listen_and_reroute_received_mono env accidents cen_positions graph comm_range v lg g :
  accidents_received v
    ⊆ accidents_received
        (vehicle (fst (listen_and_reroute env accidents cen_positions graph comm_range
                         v lg g))).
Proof.
  unfold listen_and_reroute.
  rewrite <- (update_position_received env v) at 1.
  destruct (getPosition env (veh_id (update_position env v))); simpl.
  - apply listen_loop_received_mono.
  - set_solver.
Qed.

Lemma listen_calls_received_mono calls :
  forall v lg g,
    accidents_received v ⊆ accidents_received (fst (fst (listen_calls calls v lg g))).
Proof.
  induction calls as [|c rest IH]; intros v lg g; simpl; [set_solver|].
  pose proof (listen_and_reroute_received_mono (call_env c) (call_accidents c)
                (call_cen_positions c) (call_graph c) (call_comm_range c) v lg g) as Hmono.
  destruct (listen_and_reroute _ _ _ _ _ v lg g) as [o g']; simpl in *.
  etransitivity; [exact Hmono|apply IH].
Qed.

End ListenFacts.

(** C6.  A call of [listen_and_reroute] never removes an accident from the
    vehicle's [accidents_received], whether it returns or raises, and neither
    does any sequence of calls; and in the log of a vehicle from its creation
    through any sequence of calls, each accident id has at most one route
    recomputation and at most one [setRoute] command. *)
Theorem accidents_received_grows_and_reacts_once
  (vid dest : string) (calls : list Vehicle.call) (g : Rng)
  (env : Env) (accidents : list (string * accident)) (cen_positions : list (string * pos))
  (graph : graph_t) (comm_range : Q) (v : Vehicle.t) (lg : list event) :
  Vehicle.accidents_received v
    ⊆ Vehicle.accidents_received
        (Vehicle.vehicle
           (fst (Vehicle.listen_and_reroute env accidents cen_positions graph comm_range
                   v lg g)))
  /\ Vehicle.accidents_received v
       ⊆ Vehicle.accidents_received (fst (fst (Vehicle.listen_calls calls v lg g)))
  /\ (forall acc,
        (ListenProps.recomputes acc
           (snd (fst (Vehicle.listen_calls calls (Vehicle.init vid dest) [] g))) <= 1)%nat
        /\ (ListenProps.set_routes acc
              (snd (fst (Vehicle.listen_calls calls (Vehicle.init vid dest) [] g))) <= 1)%nat).
Proof.
  split; [|split].
  - apply ListenFacts.listen_and_reroute_received_mono.
  - apply ListenFacts.listen_calls_received_mono.
  - intros acc.
    apply (ListenFacts.listen_calls_invariant calls (Vehicle.init vid dest) [] g).
    intros acc'. unfold ListenProps.recomputes, ListenProps.set_routes; simpl.
    repeat split; lia.
Qed.

(** ** C2, C8: the reroute search *)

Module AcoFacts.
Import Vehicle AcoProps.

Lemma strip_no_blocked (blocked : edge) (r : list edge) : ~ In blocked (strip blocked r).
Proof.
  unfold strip. intros Hin. apply List.filter_In in Hin. destruct Hin as [_ Hkeep].
  unfold edge_eqb in Hkeep. rewrite bool_decide_eq_true_2 in Hkeep by reflexivity.
  discriminate.
Qed.

Lemma strip_head (blocked e : edge) (r : list edge) :
  e <> blocked -> strip blocked (e :: r) = e :: strip blocked r.
Proof.
  intros Hne. unfold strip, edge_eqb; simpl.
  rewrite bool_decide_eq_false_2 by exact Hne. reflexivity.
Qed.

Lemma finish_route (v : t) (blocked : edge) (best : option (list edge)) (r : list edge) :
  finish v blocked best = Ok r ->
  ~ In blocked r
  /\ (current_edge v <> blocked -> hd_error r = Some (current_edge v)).
Proof.
  unfold finish.
  destruct (match best with Some (e :: r0) => e :: r0 | _ => strip blocked (route v) end)
    as [|first rest]; [discriminate|].
  intros Hr. injection Hr as <-. split; [apply strip_no_blocked|].
  intros Hne. unfold edge_eqb.
  destruct (bool_decide (first = current_edge v)) eqn:Hfirst; cbn [negb].
  - apply bool_decide_eq_true in Hfirst. subst first.
    rewrite strip_head by exact Hne. reflexivity.
  - rewrite strip_head by exact Hne. reflexivity.
Qed.

Lemma aco_reroute_finish (v : t) (graph : graph_t) (blocked : edge) (g : Rng) (r : list edge) :
  fst (aco_reroute v graph blocked g) = Ok r ->
  exists best, finish v blocked best = Ok r.
Proof.
  unfold aco_reroute, bindM, lift.
  destruct (trials NUM_ANTS graph blocked v _ g) as [[col|e] g']; simpl; [|discriminate].
  intros Hr. exists (best_route col). exact Hr.
Qed.

(** *** The search returns *)


Lemma Qeqb_false (x y : Q) : Qeqb x y = false -> ~ (x == y)%Q.
Proof.
  unfold Qeqb. intros H Heq. apply Qeq_bool_iff in Heq. congruence.
Qed.

Lemma inv_square_pos (c : Q) : ~ (c == 0)%Q -> (0 < (1 / c) * (1 / c))%Q.
Proof.
  intros Hc.
  assert (Hinv : ~ (1 / c == 0)%Q).
  { intros H. apply Hc. 
    assert (Hm : (c * (1 / c) == 1)%Q) by (field; exact Hc).
    rewrite H in Hm. rewrite Qmult_0_r in Hm. discriminate Hm. }
  destruct (Q_dec (1 / c) 0) as [[Hlt|Hgt]|Heq]; [| |contradiction].
  - assert (Hsq : ((1 / c) * (1 / c) == (- (1 / c)) * (- (1 / c)))%Q) by ring.
    rewrite Hsq.
    apply Qmult_lt_0_compat; apply (Qopp_lt_compat (1/c) 0) in Hlt; exact Hlt.
  - apply Qmult_lt_0_compat; exact Hgt.
Qed.

Lemma get_default_positive (k : edge) (ph : list (edge * Q)) :
  positive ph -> (0 < PyDict.get_default k 1 ph)%Q.
Proof.
  unfold PyDict.get_default, positive. induction ph as [|[k0 v0] ph IH]; simpl; intros Hp.
  - reflexivity.
  - destruct (decide (k = k0)).
    + apply (Hp (k0, v0)). left. reflexivity.
    + apply IH. intros kv Hin. apply Hp. right. exact Hin.
Qed.

Lemma set_positive (k : edge) (v : Q) (ph : list (edge * Q)) :
  (0 < v)%Q -> positive ph -> positive (PyDict.set k v ph).
Proof.
  unfold positive. intros Hv. induction ph as [|[k0 v0] ph IH]; simpl; intros Hp kv Hin.
  - destruct Hin as [<-|[]]. exact Hv.
  - destruct (decide (k = k0)).
    + destruct Hin as [<-|Hin]; [exact Hv|]. apply Hp. right. exact Hin.
    + destruct Hin as [<-|Hin]; [apply (Hp (k0, v0)); left; reflexivity|].
      apply IH; [|exact Hin]. intros kv' Hin'. apply Hp. right. exact Hin'.
Qed.

Lemma deposit_positive (vis : list edge) :
  forall ph, positive ph -> positive (deposit ph vis).
Proof.
  unfold deposit. induction vis as [|node vis IH]; intros ph Hp; simpl; [exact Hp|].
  apply IH. apply set_positive; [|exact Hp].
  pose proof (get_default_positive node ph Hp) as Hd.
  unfold evaporation.
  apply (Qlt_le_trans _ (1 # 10)); [reflexivity|].
  rewrite <- (Qplus_0_l (1 # 10)) at 1. apply Qplus_le_compat; [|apply Qle_refl].
  apply Qmult_le_0_compat; [discriminate|apply Qlt_le_weak, Hd].
Qed.

Lemma get_in {V : Type} (k : string) (d : list (string * V)) (v : V) :
  PyDict.get k d = Some v -> In (k, v) d.
Proof.
  induction d as [|[k0 v0] d IH]; simpl; [discriminate|].
  destruct (decide (k = k0)) as [->|Hne]; [intros [= ->]; left; reflexivity|].
  intros H. right. apply IH, H.
Qed.

Lemma candidates_costs graph current blocked vis :
  costs_nonzero graph ->
  forall nc, In nc (candidates graph current blocked vis) -> Qeqb (snd nc) 0 = false.
Proof.
  intros Hg [n c] Hin. unfold candidates in Hin. apply List.filter_In in Hin.
  destruct Hin as [Hin _]. unfold graph_get, PyDict.get_default in Hin.
  destruct current as [s|]; [|destruct Hin].
  destruct (PyDict.get s graph) as [nbrs|] eqn:Hget; [|destruct Hin].
  apply get_in in Hget. exact (Hg s nbrs n c Hget Hin).
Qed.

Lemma desirabilities_ok ph nbrs :
  positive ph ->
  (forall nc, In nc nbrs -> Qeqb (snd nc) 0 = false) ->
  exists ws, desirabilities ph nbrs = Ok ws
             /\ length ws = length nbrs
             /\ Forall (fun w => (0 < w)%Q) ws.
Proof.
  intros Hp. induction nbrs as [|[n c] rest IH]; intros Hc; simpl.
  - exists []. repeat split. constructor.
  - assert (Hcz : Qeqb c 0 = false) by (apply (Hc (n, c)); left; reflexivity).
    rewrite Hcz.
    destruct IH as (ws & -> & Hlen & Hpos); [intros nc Hin; apply Hc; right; exact Hin|].
    simpl. eexists. split; [reflexivity|]. split; [simpl; rewrite Hlen; reflexivity|].
    constructor; [|exact Hpos].
    apply Qmult_lt_0_compat; [apply get_default_positive, Hp|].
    apply inv_square_pos, Qeqb_false, Hcz.
Qed.

Lemma fold_Qplus_acc (l : list Q) :
  forall a, (fold_left Qplus l a == a + Qsum l)%Q.
Proof.
  unfold Qsum. induction l as [|x l IH]; intros a; simpl; [ring|].
  rewrite (IH (a + x)%Q), (IH (0 + x)%Q). ring.
Qed.

Lemma Qsum_cons (x : Q) (l : list Q) : (Qsum (x :: l) == x + Qsum l)%Q.
Proof. unfold Qsum at 1. simpl. rewrite fold_Qplus_acc. ring. Qed.

Lemma Qsum_nonneg (l : list Q) : Forall (fun w => (0 < w)%Q) l -> (0 <= Qsum l)%Q.
Proof.
  induction 1 as [|x l Hx _ IH]; [discriminate|].
  rewrite Qsum_cons. apply Qlt_le_weak in Hx.
  rewrite <- (Qplus_0_l 0). apply Qplus_le_compat; assumption.
Qed.

Lemma Qsum_pos (l : list Q) :
  Forall (fun w => (0 < w)%Q) l -> l <> [] -> (0 < Qsum l)%Q.
Proof.
  intros Hpos Hne. destruct Hpos as [|x l Hx Hl]; [contradiction|].
  rewrite Qsum_cons. rewrite <- (Qplus_0_l 0).
  apply Qplus_lt_le_compat; [exact Hx|apply Qsum_nonneg, Hl].
Qed.

Lemma Qsum_scaled (t : Q) (l : list Q) :
  ~ (t == 0)%Q -> (Qsum (map (fun p => p / t) l) == Qsum l / t)%Q.
Proof.
  intros Ht. induction l as [|x l IH]; simpl.
  - unfold Qsum; simpl. field. exact Ht.
  - rewrite !Qsum_cons, IH. field. exact Ht.
Qed.

Lemma normalise_ok (ws : list Q) :
  Forall (fun w => (0 < w)%Q) ws -> ws <> [] ->
  exists probs, normalise ws = Ok probs
                /\ length probs = length ws
                /\ (Qsum probs == 1)%Q.
Proof.
  intros Hpos Hne. unfold normalise.
  pose proof (Qsum_pos ws Hpos Hne) as Htotal.
  assert (Hnz : ~ (Qsum ws == 0)%Q).
  { intros H. rewrite H in Htotal. exact (Qlt_irrefl _ Htotal). }
  destruct (Qeqb (Qsum ws) 0) eqn:Hz.
  - exfalso. apply Hnz. apply Qeq_bool_iff. exact Hz.
  - eexists. split; [reflexivity|]. split; [apply length_map|].
    rewrite Qsum_scaled by exact Hnz. field. exact Hnz.
Qed.

Lemma scan_picks (r : Q) (nbrs : list (string * Q)) :
  forall probs cumulative,
    length probs = length nbrs -> nbrs <> [] ->
    (r <= cumulative + Qsum probs)%Q ->
    exists p, scan r cumulative nbrs probs = Some p.
Proof.
  induction nbrs as [|[n c] rest IH]; intros probs cumulative Hlen Hne Hr;
    [contradiction|].
  destruct probs as [|p probs]; [discriminate|]. simpl.
  destruct (Qleb r (cumulative + p)) eqn:Hpick; [eexists; reflexivity|].
  destruct rest as [|nc rest].
  - destruct probs; [|discriminate]. exfalso.
    rewrite Qsum_cons in Hr. unfold Qsum in Hr; simpl in Hr.
    assert (Hle : (r <= cumulative + p)%Q).
    { eapply Qle_trans; [exact Hr|]. apply Qle_lteq. right. ring. }
    apply Qle_bool_iff in Hle. unfold Qleb in Hpick. congruence.
  - apply IH; [simpl in *; congruence|discriminate|].
    rewrite Qsum_cons in Hr. eapply Qle_trans; [exact Hr|]. apply Qle_lteq. right. ring.
Qed.

Lemma rng_step_draws (g : Rng) : draws_at_most_one g -> draws_at_most_one (rng_step g).
Proof. intros H i. apply H. Qed.

(** A walk returns, and consumes draws only. *)
Lemma walk_returns graph blocked dest ph :
  costs_nonzero graph -> positive ph ->
  forall hops current a g,
    draws_at_most_one g -> visited a <> [] ->
    exists a' g', walk hops graph blocked dest ph current a g = (Ok a', g')
                  /\ draws_at_most_one g' /\ visited a' <> [].
Proof.
  intros Hg Hp. induction hops as [|hops IH]; intros current a g Hd Hv; cbn [walk].
  - exists a, g. repeat split; assumption.
  - destruct (candidates graph current blocked (visited a)) as [|nc nbrs] eqn:Hcand.
    + exists a, g. repeat split; assumption.
    + destruct (desirabilities_ok ph (nc :: nbrs) Hp) as (ws & Hws & Hlen & Hpos).
      { rewrite <- Hcand. apply candidates_costs, Hg. }
      destruct (normalise_ok ws Hpos) as (probs & Hprobs & Hlen' & Hsum).
      { intros ->. discriminate Hlen. }
      destruct (scan_picks (rnd_uniform g (rnd_pos g)) (nc :: nbrs) probs 0)
        as [[next_node next_cost] Hscan].
      { congruence. }
      { discriminate. }
      { rewrite Hsum. apply (Qle_trans _ 1); [apply Hd|discriminate]. }
      unfold bindM, lift, random_random. rewrite Hws, Hprobs, Hscan.
      destruct (edge_eqb (Some next_node) (Some dest)).
      * eexists _, _. split; [reflexivity|]. split; [apply rng_step_draws, Hd|].
        simpl. intros H. apply app_eq_nil in H. destruct H as [_ H]. discriminate.
      * apply IH; [apply rng_step_draws, Hd|].
        simpl. intros H. apply app_eq_nil in H. destruct H as [_ H]. discriminate.
Qed.

Lemma trials_return graph blocked v :
  costs_nonzero graph ->
  forall n col g,
    sound col -> draws_at_most_one g ->
    exists col' g', trials n graph blocked v col g = (Ok col', g') /\ sound col'.
Proof.
  intros Hg. induction n as [|n IH]; intros col g [Hp Hb] Hd; simpl.
  - exists col, g. split; [reflexivity|split; assumption].
  - unfold bindM at 1. unfold trial, bindM.
    destruct (walk_returns graph blocked (destination v) (pheromone_of col) Hg Hp MAX_HOPS
                (current_edge v)
                {| visited := [current_edge v]; cost := 0; next_pick := carried_pick col |}
                g Hd) as (a & g' & Hwalk & Hd' & Hvis); [discriminate|].
    rewrite Hwalk. unfold ret.
    apply IH; [|exact Hd'].
    split; simpl.
    + apply deposit_positive, Hp.
    + intros r. destruct (_ && _); [intros [= <-]; exact Hvis|apply Hb].
Qed.

Lemma finish_returns v blocked best :
  (forall r, best = Some r -> r <> []) ->
  strip blocked (route v) <> [] ->
  exists r, finish v blocked best = Ok r.
Proof.
  intros Hb Hfallback. unfold finish.
  destruct best as [[|e r]|].
  - exfalso. exact (Hb [] eq_refl eq_refl).
  - eexists. reflexivity.
  - destruct (strip blocked (route v)) as [|e r]; [contradiction|]. eexists. reflexivity.
Qed.

(** The reroute returns a route when no edge costs zero, the draws are at
    most one and the existing route has a segment besides the blocked one. *)
Lemma aco_reroute_returns v graph blocked g :
  costs_nonzero graph -> draws_at_most_one g ->
  strip blocked (route v) <> [] ->
  exists r, fst (aco_reroute v graph blocked g) = Ok r.
Proof.
  intros Hg Hd Hfallback. unfold aco_reroute, bindM.
  destruct (trials_return graph blocked v Hg NUM_ANTS
              {| pheromone_of := map (fun kv => (Some (fst kv), 1%Q)) graph;
                 best_route := None; best_cost := None; carried_pick := None |} g)
    as (col & g' & Htrials & Hp & Hb); [|exact Hd|].
  - split; simpl; [|discriminate].
    intros kv Hin. apply in_map_iff in Hin. destruct Hin as (kv' & <- & _). reflexivity.
  - rewrite Htrials. unfold lift; simpl.
    apply finish_returns; assumption.
Qed.

End AcoFacts.

(** C2 (as amended).  Whenever [aco_reroute] returns a route, the route has
    no occurrence of the blocked segment, and when the vehicle's current
    segment is not the blocked one the route starts with the current
    segment. *)
Theorem aco_reroute_avoids_block_and_starts_at_current
  (v : Vehicle.t) (graph : graph_t) (blocked : edge) (g : Rng) (r : list edge) :
  fst (Vehicle.aco_reroute v graph blocked g) = Ok r ->
  ~ In blocked r
  /\ (Vehicle.current_edge v <> blocked -> hd_error r = Some (Vehicle.current_edge v)).
Proof.
  intros Hr. destruct (AcoFacts.aco_reroute_finish v graph blocked g r Hr) as [best Hbest].
  exact (AcoFacts.finish_route v blocked best r Hbest).
Qed.

Lemma aco_reroute_avoids_block_witness :
  fst (Vehicle.aco_reroute Sample.veh_abc Sample.grid (Some "E") (Sample.rng_const 0))
    = Ok [Some "A"; Some "B"; Some "C"]
  /\ ~ In (Some "E") [Some "A"; Some "B"; Some "C"]
  /\ (Some "A" <> Some "E" -> hd_error [Some "A"; Some "B"; Some "C"] = Some (Some "A")).
Proof.
  split; [vm_compute; reflexivity|].
  apply (aco_reroute_avoids_block_and_starts_at_current
           Sample.veh_abc Sample.grid (Some "E") (Sample.rng_const 0)).
  vm_compute. reflexivity.
Defined.

(** C2, the claim as stated, fails when the blocked segment is the vehicle's
    current segment: on the line [A - B - C] a vehicle on [A] bound for [C]
    with [A] blocked gets the route [B, C], which does not start at [A]. *)
Lemma aco_reroute_drops_blocked_current :
  fst (Vehicle.aco_reroute Sample.veh_abc Sample.line (Some "A") (Sample.rng_const 0))
    = Ok [Some "B"; Some "C"]
  /\ hd_error [Some "B"; Some "C"] <> Some (Vehicle.current_edge Sample.veh_abc).
Proof. split; [vm_compute; reflexivity | discriminate]. Qed.

(** C8.  The fallback is fatal when it is empty: on the line [A - B - C]
    with [B] blocked no trial leaves [A]; for a vehicle whose existing route
    is the single segment [B] the filtered route is empty and indexing its
    first element raises [IndexError], whatever the random draws.  With the
    route [A, B, C] the same search returns the filtered route [A, C]. *)
Theorem aco_reroute_empty_fallback_raises (g : Rng) :
  fst (Vehicle.aco_reroute Sample.veh_b Sample.line (Some "B") g) = Raise IndexError
  /\ fst (Vehicle.aco_reroute Sample.veh_abc Sample.line (Some "B") g)
     = Ok [Some "A"; Some "C"].
Proof. split; vm_compute; reflexivity. Qed.

(** ** C9: a rejected [setRoute] *)

(** C9.  The vehicle [veh5] stands at [EdgeNode_A] on [B] with route
    [B, A, D] and hears of the accident [ACC_001]; the search returns
    [B, C, F, E, D] and the simulator rejects the [setRoute] command.  The
    failure is logged, nothing is raised and the command is issued once, but
    the vehicle's stored route is the rejected one, not the route it had
    before the attempt. *)
Theorem rejected_set_route_leaves_new_route :
  let o := fst (Vehicle.listen_and_reroute Sample.env_reject (CEN.accidents Sample.cen1)
                  Sim.EDGE_NODE_POSITIONS Sample.grid 200 Sample.veh5 []
                  (Sample.rng_const 0)) in
  Vehicle.route (Vehicle.update_position Sample.env_reject Sample.veh5)
    = [Some "B"; Some "A"; Some "D"]
  /\ Vehicle.route (Vehicle.vehicle o)
     = [Some "B"; Some "C"; Some "F"; Some "E"; Some "D"]
  /\ Vehicle.log o
     = [EvReceived "veh5" "ACC_001"; EvRecompute "veh5" "ACC_001";
        EvSetRoute "veh5" "ACC_001" [Some "B"; Some "C"; Some "F"; Some "E"; Some "D"];
        EvRerouteFailed "veh5" "ACC_001"]
  /\ Vehicle.raised o = None
  /\ elements (Vehicle.accidents_received (Vehicle.vehicle o)) = ["ACC_001"].
Proof. vm_compute. repeat split; reflexivity. Qed.

(** ** C7: the periodic broadcast *)

Module BroadcastFacts.
Import CEN BroadcastProps.

Lemma keywords_do_not_bind :
  binds Vehicle.listen_and_reroute_signature broadcast_call_keywords = false.
Proof. reflexivity. Qed.

Lemma notify_vehicles_changes_nothing env c graph comm_range data vs :
  forall lg g, notify_vehicles env c graph comm_range data vs lg g = ((vs, lg), g).
Proof.
  induction vs as [|[vid veh] rest IH]; intros lg g; simpl; [reflexivity|].
  destruct (bool_decide (vid ∈ vehicles_involved data)); [rewrite IH; reflexivity|].
  destruct (getPosition env vid) as [veh_pos|]; [|rewrite IH; reflexivity].
  destruct (registered_by_edge data) as [broadcasting_edge|]; [|rewrite IH; reflexivity].
  destruct (PyDict.get broadcasting_edge (edge_nodes c)) as [node|];
    [|rewrite IH; reflexivity].
  destruct (hypot_le veh_pos (position node) comm_range); [|rewrite IH; reflexivity].
  rewrite IH. reflexivity.
Qed.

Lemma sweep_result env c now graph comm_range todo :
  forall done_ vs lg g,
    vehicles_after (fst (sweep env c now graph comm_range done_ todo vs lg g)) = vs
    /\ accidents_after (fst (sweep env c now graph comm_range done_ todo vs lg g))
       = done_ ++ reset_due c now todo.
Proof.
  induction todo as [|[acc_id data] rest IH]; intros done_ vs lg g; simpl.
  - rewrite app_nil_r. split; reflexivity.
  - destruct (due c now data).
    + assert (Hstep :
        (match vs, edge_nodes c with
         | _ :: _, _ :: _ =>
             notify_vehicles env
               {| interval := interval c; accidents := done_ ++ (acc_id, data) :: rest;
                  edge_nodes := edge_nodes c |}
               graph comm_range data vs
               (match edge_nodes c with
                | [] => lg ++ [EvBroadcast acc_id]
                | _ :: _ => (lg ++ [EvBroadcast acc_id])
                              ++ notify_edge_nodes c acc_id data comm_range
                end) g
         | _, _ => ((vs, match edge_nodes c with
                         | [] => lg ++ [EvBroadcast acc_id]
                         | _ :: _ => (lg ++ [EvBroadcast acc_id])
                                       ++ notify_edge_nodes c acc_id data comm_range
                         end), g)
         end) = ((vs, match edge_nodes c with
                      | [] => lg ++ [EvBroadcast acc_id]
                      | _ :: _ => (lg ++ [EvBroadcast acc_id])
                                    ++ notify_edge_nodes c acc_id data comm_range
                      end), g)).
      { destruct vs; [reflexivity|]. destruct (edge_nodes c); [reflexivity|].
        apply notify_vehicles_changes_nothing. }
      rewrite Hstep. destruct (IH (done_ ++ [(acc_id, with_last_time now data)]) vs
                                 (match edge_nodes c with
                                  | [] => lg ++ [EvBroadcast acc_id]
                                  | _ :: _ => (lg ++ [EvBroadcast acc_id])
                                                ++ notify_edge_nodes c acc_id data comm_range
                                  end) g) as [Hv Ha].
      rewrite Hv, Ha, <- app_assoc. split; reflexivity.
    + destruct (IH (done_ ++ [(acc_id, data)]) vs lg g) as [Hv Ha].
      rewrite Hv, Ha, <- app_assoc. split; reflexivity.
Qed.

End BroadcastFacts.

(** C7.  [broadcast] resets the last-broadcast time of exactly the
    accidents that are due and leaves the others as they are, but it never
    runs [listen_and_reroute]: the call passes a keyword [accident_edge]
    that the method does not declare, the [TypeError] is swallowed, and every
    vehicle is left as it was.  In the scenario [veh5] is not involved in
    [ACC_001], stands on the registering node and the accident is due: the
    broadcast leaves its received set empty, where the method called as
    run_simulation.py calls it marks [ACC_001] as received. *)
Theorem broadcast_never_runs_listen_and_reroute
  (env : Env) (now : Q) (vs : list (string * Vehicle.t)) (graph : graph_t)
  (comm_range : Q) (c : CEN.t) (lg : list event) (g : Rng) :
  CEN.vehicles_after (fst (CEN.broadcast env now vs graph comm_range c lg g)) = vs
  /\ CEN.accidents_after (fst (CEN.broadcast env now vs graph comm_range c lg g))
     = BroadcastProps.reset_due c now (CEN.accidents c)
  /\ binds Vehicle.listen_and_reroute_signature CEN.broadcast_call_keywords = false
  /\ (let data := PyDict.get "ACC_001" (CEN.accidents Sample.cen1) in
      let swept := fst (CEN.broadcast Sample.env_reject 10 [("veh5", Sample.veh5)]
                          Sample.grid 200 Sample.cen1 [] (Sample.rng_const 0)) in
      let direct := fst (Vehicle.listen_and_reroute Sample.env_reject
                           (CEN.accidents Sample.cen1) Sim.EDGE_NODE_POSITIONS
                           Sample.grid 200 Sample.veh5 [] (Sample.rng_const 0)) in
      option_map (fun d => (CEN.due Sample.cen1 10 d,
                            bool_decide ("veh5" ∈ vehicles_involved d),
                            registered_by_edge d)) data
        = Some (true, false, Some "EdgeNode_A")
      /\ Sample.env_reject.(getPosition) "veh5" = PyDict.get "EdgeNode_A" Sim.EDGE_NODE_POSITIONS
      /\ map (fun kv => elements (Vehicle.accidents_received (snd kv)))
             (CEN.vehicles_after swept) = [[]]
      /\ elements (Vehicle.accidents_received (Vehicle.vehicle direct)) = ["ACC_001"]).
Proof.
  unfold CEN.broadcast.
  destruct (BroadcastFacts.sweep_result env c now graph comm_range (CEN.accidents c)
              [] vs lg g) as [Hv Ha].
  split; [exact Hv|]. split; [exact Ha|]. split; [reflexivity|].
  vm_compute. repeat split; reflexivity.
Qed.

(** ** C1: hop counts along a relay chain *)

Module RelayFacts.
Import Sim.

Lemma relay_clone_hop_count env m v :
  hop_count (relay_clone env m v) = (hop_count m + 2)%nat.
Proof. unfold relay_clone, increment_hop; simpl. lia. Qed.

Lemma relay_clone_path env m v :
  propagation_path (relay_clone env m v) = propagation_path m ++ [v].
Proof. reflexivity. Qed.

(** The relay returns: the fuel [propagate_v2v_message] gives is enough. *)
Lemma propagate_returns env fuel :
  forall m vid p w,
    (MAX_HOP_COUNT - hop_count m < fuel)%nat ->
    exists r, propagate fuel env m vid p w = Some r.
Proof.
  induction fuel as [|fuel IH]; intros m vid p w Hfuel; [lia|].
  cbn -[Nat.leb MAX_HOP_COUNT]. destruct (MAX_HOP_COUNT <=? hop_count m)%nat eqn:Hmax; [eexists; reflexivity|].
  apply Nat.leb_gt in Hmax.
  destruct (first_undelivered w (message_id m) (find_edge_nodes_in_range w p))
    as [[edge_id node]|]; [eexists; reflexivity|].
  generalize (find_vehicles_in_range env p vid). intros cands. revert w.
  induction cands as [|[[vehicle_id d] vehicle_pos] rest IHc]; intros w; [eexists; reflexivity|].
  destruct (existsb (String.eqb vehicle_id) (propagation_path m)); [apply IHc|].
  destruct (IH (relay_clone env m vehicle_id) vehicle_id vehicle_pos
               (record_clone (relay_clone env m vehicle_id) w)) as [[[|] w'] Hr].
  - rewrite relay_clone_hop_count. lia.
  - rewrite Hr. eexists; reflexivity.
  - rewrite Hr. apply IHc.
Qed.

Lemma propagate_v2v_message_returns env m vid p w :
  exists r, propagate_v2v_message env m vid p w = Some r.
Proof. unfold propagate_v2v_message. apply propagate_returns. lia. Qed.

End RelayFacts.

(** C1.  A relay clone's hop count is its parent's plus two, not plus one:
    the clone is built with [hop_count + 1] and [increment_hop] then adds
    one more.  For four vehicles in a row out of reach of every edge node
    the clones kept in the message history have hop counts 2, 4 and 6, the
    last above [MAX_HOP_COUNT = 5]; the relay returns failure. *)
Theorem relay_clone_adds_two_hops (env : Env) (m : Sim.V2VMessage) (v : string) :
  Sim.hop_count (Sim.relay_clone env m v) = (Sim.hop_count m + 2)%nat
  /\ Sim.propagation_path (Sim.relay_clone env m v) = Sim.propagation_path m ++ [v]
  /\ option_map
       (fun r => (fst r,
                  map (fun kv => map (fun c => (Sim.hop_count c, Sim.propagation_path c))
                                     (snd kv))
                      (Sim.message_history (snd r))))
       (Sim.broadcast_emergency_alert Sample.env_row "EMERGENCY_1" "veh0"
          (1000, 1000)%Q ("veh0", "veh1") "ACC_001" Sample.world0)
     = Some (false,
             [[(0, ["veh0"]); (2, ["veh0"; "veh1"]); (4, ["veh0"; "veh1"; "veh2"]);
               (6, ["veh0"; "veh1"; "veh2"; "veh3"])]]%nat)
  /\ Sim.MAX_HOP_COUNT = 5%nat.
Proof.
  split; [apply RelayFacts.relay_clone_hop_count|].
  split; [reflexivity|]. split; [vm_compute; reflexivity|reflexivity].
Qed.

(** ** C3: the fitness score *)

Module FitnessFacts.
Import GA.



End FitnessFacts.




(** ** C4: the selection when one ambulance is tracked *)

Module SelectFacts.
Import GA SelectProps.

Lemma Qltb_lt (x y : Q) : Qltb x y = true <-> (x < y)%Q.
Proof.
  unfold Qltb. rewrite negb_true_iff. split.
  - intros H. apply Qnot_le_lt. intros Hle. apply Qle_bool_iff in Hle. congruence.
  - intros H. destruct (Qle_bool y x) eqn:Hle; [|reflexivity].
    apply Qle_bool_iff in Hle. exfalso. exact (Qlt_not_le _ _ H Hle).
Qed.

Lemma Qltb_irrefl (x : Q) : Qltb x x = false.
Proof.
  destruct (Qltb x x) eqn:H; [|reflexivity].
  apply Qltb_lt in H. exfalso. exact (Qlt_irrefl _ H).
Qed.




Lemma set_keys (k : string) (v : Q) (table : list (string * Q)) :
  forall k', In k' (PyDict.keys (PyDict.set k v table))
             <-> k' = k \/ In k' (PyDict.keys table).
Proof.
  unfold PyDict.keys. induction table as [|[k0 v0] table IH]; simpl; intros k'.
  - intuition.
  - destruct (decide (k = k0)) as [->|Hne]; simpl.
    + intuition.
    + rewrite IH. intuition.
Qed.





(** [select_best_ambulance] in terms of the final population. *)
Lemma select_unfold env ax ay positions acc_edge g :
  fst (select_best_ambulance env ax ay positions acc_edge g)
  = match fst (evolve (fun ind => fitness env ind ax ay positions acc_edge) g) with
    | Ok population =>
        do final_fitnesses <-
           fitness_table (fun ind => fitness env ind ax ay positions acc_edge) population [];
        do best <- argmax final_fitnesses;
        match PyDict.get best ambulance_routes with
        | Some _ => Ok best
        | None => Raise KeyError
        end
    | Raise e => Raise e
    end.
Proof.
  unfold select_best_ambulance, bindM, lift, ret, raise.
  destruct (evolve _ g) as [[population|e] g']; simpl; [|reflexivity].
  destruct (fitness_table _ population []) as [table|e]; simpl; [|reflexivity].
  destruct (argmax table) as [best|e]; simpl; [|reflexivity].
  repeat (destruct (decide _)); reflexivity.
Qed.

Lemma route_of_key (a : string) :
  In a (PyDict.keys ambulance_readiness) -> exists r, PyDict.get a ambulance_routes = Some r.
Proof.
  simpl. intros [<-|[<-|[<-|[]]]]; eexists; reflexivity.
Qed.

End SelectFacts.




(** ** best_erv.py: the search never fails *)

Module GAFacts.
Import GA GAProps.

Lemma random_choice_member {A : Type} (seq : list A) (g : Rng) :
  seq <> [] ->
  exists x, random_choice seq g = (Ok x, rng_step g) /\ In x seq.
Proof.
  intros Hne. unfold random_choice.
  assert (Hlt : (rnd_index g (rnd_pos g) (length seq) mod length seq < length seq)%nat).
  { apply Nat.mod_upper_bound. destruct seq; [contradiction|discriminate]. }
  destruct (nth_error seq _) as [x|] eqn:Hnth.
  - exists x. split; [reflexivity|]. eapply nth_error_In, Hnth.
  - apply nth_error_None in Hnth. lia.
Qed.


Lemma get_of_key {V : Type} (k : string) (d : list (string * V)) :
  In k (PyDict.keys d) -> exists v, PyDict.get k d = Some v /\ In (k, v) d.
Proof.
  unfold PyDict.keys. induction d as [|[k0 v0] d IH]; simpl; [intros []|].
  destruct (decide (k = k0)) as [->|Hne].
  - intros _. exists v0. split; [reflexivity|left; reflexivity].
  - intros [H|H]; [congruence|]. destruct (IH H) as (v & Hv & Hin).
    exists v. split; [exact Hv|right; exact Hin].
Qed.

Lemma set_scored_by f k q table :
  f k = Ok q -> scored_by f table -> scored_by f (PyDict.set k q table).
Proof.
  unfold scored_by. intros Hk. induction table as [|[k0 v0] table IH]; simpl; intros Hs kv Hin.
  - destruct Hin as [<-|[]]. exact Hk.
  - destruct (decide (k = k0)) as [->|Hne].
    + destruct Hin as [<-|Hin]; [exact Hk|]. apply Hs. right. exact Hin.
    + destruct Hin as [<-|Hin]; [apply (Hs (k0, v0)); left; reflexivity|].
      apply IH; [|exact Hin]. intros kv' Hin'. apply Hs. right. exact Hin'.
Qed.

(** The table of a population on which the fitness returns. *)
Lemma fitness_table_returns f population :
  (forall ind, In ind population -> exists q, f ind = Ok q) ->
  forall table, scored_by f table ->
    exists table', fitness_table f population table = Ok table'
                   /\ scored_by f table'
                   /\ (forall k, In k (PyDict.keys table')
                                 <-> In k population \/ In k (PyDict.keys table)).
Proof.
  induction population as [|ind rest IH]; intros Hf table Hs; simpl.
  - exists table. split; [reflexivity|]. split; [exact Hs|]. intros k. intuition.
  - destruct (Hf ind) as [q Hq]; [left; reflexivity|]. rewrite Hq. simpl.
    destruct (IH (fun i Hi => Hf i (or_intror Hi)) (PyDict.set ind q table)
                 (set_scored_by f ind q table Hq Hs)) as (table' & Ht & Hs' & Hk).
    exists table'. split; [exact Ht|]. split; [exact Hs'|].
    intros k. rewrite Hk, SelectFacts.set_keys. intuition.
Qed.

Lemma lookup_returns k table :
  In k (PyDict.keys table) -> exists v, lookup k table = Ok v.
Proof.
  intros Hin. destruct (get_of_key k table Hin) as (v & Hv & _).
  unfold lookup. rewrite Hv. eexists. reflexivity.
Qed.

Lemma rng_step_pos g : rnd_pos (rng_step g) = S (rnd_pos g).
Proof. reflexivity. Qed.

Lemma challenge_member rounds pop fitnesses :
  pop <> [] -> (forall x, In x pop -> In x (PyDict.keys fitnesses)) ->
  forall best g, In best pop ->
    exists b g', challenge rounds pop fitnesses best g = (Ok b, g') /\ In b pop.
Proof.
  intros Hne Hkeys. induction rounds as [|rounds IH]; intros best g Hbest; simpl.
  - exists best, g. split; [reflexivity|exact Hbest].
  - destruct (random_choice_member pop g Hne) as (c & Hc & Hin).
    destruct (lookup_returns c fitnesses (Hkeys c Hin)) as [fc Hfc].
    destruct (lookup_returns best fitnesses (Hkeys best Hbest)) as [fb Hfb].
    unfold bindM, lift. rewrite Hc, Hfc, Hfb.
    apply IH. destruct (Qltb fb fc); assumption.
Qed.

Lemma tournament_member pop fitnesses g :
  pop <> [] -> (forall x, In x pop -> In x (PyDict.keys fitnesses)) ->
  exists b g', tournament_selection pop fitnesses g = (Ok b, g') /\ In b pop.
Proof.
  intros Hne Hkeys. unfold tournament_selection, bindM.
  destruct (random_choice_member pop g Hne) as (c & Hc & Hin). rewrite Hc.
  apply challenge_member; assumption.
Qed.

Lemma crossover_parent p1 p2 g :
  exists c g', crossover p1 p2 g = (Ok c, g') /\ (c = p1 \/ c = p2).
Proof.
  unfold crossover, bindM, random_random.
  destruct (Qltb _ CROSSOVER_RATE).
  - destruct (random_choice_member [p1; p2] (rng_step g)) as (c & Hc & Hin); [discriminate|].
    rewrite Hc. exists c, (rng_step (rng_step g)). split; [reflexivity|].
    destruct Hin as [<-|[<-|[]]]; auto.
  - exists p1, (rng_step g). split; [reflexivity|left; reflexivity].
Qed.

Lemma mutate_child c g :
  exists c' g', mutate c g = (Ok c', g') /\ (c' = c \/ In c' table_ids).
Proof.
  unfold mutate, bindM, random_random.
  destruct (Qltb _ MUTATION_RATE).
  - destruct (random_choice_member (PyDict.keys ambulance_readiness) (rng_step g))
      as (c' & Hc & Hin); [discriminate|].
    rewrite Hc. exists c', (rng_step (rng_step g)). split; [reflexivity|right; exact Hin].
  - exists c, (rng_step g). split; [reflexivity|left; reflexivity].
Qed.

Lemma breed_returns pop fitnesses :
  pop <> [] -> of_table pop -> (forall x, In x pop -> In x (PyDict.keys fitnesses)) ->
  forall todo new_population g,
    of_table new_population ->
    exists pop' g', breed todo pop fitnesses new_population g = (Ok pop', g')
                    /\ of_table pop'
                    /\ length pop' = (length new_population + todo)%nat.
Proof.
  intros Hne Hpop Hkeys. induction todo as [|todo IH]; intros new_population g Hnew; simpl.
  - exists new_population, g. split; [reflexivity|]. split; [exact Hnew|lia].
  - destruct (tournament_member pop fitnesses g Hne Hkeys) as (p1 & g1 & H1 & Hp1).
    destruct (tournament_member pop fitnesses g1 Hne Hkeys) as (p2 & g2 & H2 & Hp2).
    destruct (crossover_parent p1 p2 g2) as (c & g3 & H3 & Hc).
    destruct (mutate_child c g3) as (c' & g4 & H4 & Hc').
    unfold bindM at 1. rewrite H1. unfold bindM at 1. rewrite H2.
    unfold bindM at 1. rewrite H3. unfold bindM at 1. rewrite H4.
    destruct (IH (new_population ++ [c']) g4) as (pop' & g' & Hb & Ht & Hl).
    { intros x Hx. apply in_app_or in Hx. destruct Hx as [Hx|[<-|[]]]; [apply Hnew, Hx|].
      destruct Hc' as [->|Hc']; [|exact Hc'].
      destruct Hc as [->| ->]; apply Hpop; assumption. }
    exists pop', g'. split; [exact Hb|]. split; [exact Ht|].
    rewrite Hl, length_app. simpl. lia.
Qed.

Lemma generations_return (f : string -> res Q) :
  (forall ind, In ind table_ids -> exists q, f ind = Ok q) ->
  forall n pop g,
    of_table pop -> length pop = POP_SIZE ->
    exists pop' g', generations n f pop g = (Ok pop', g')
                    /\ of_table pop' /\ length pop' = POP_SIZE.
Proof.
  intros Hf. induction n as [|n IH]; intros pop g Hpop Hlen; cbn [generations].
  - exists pop, g. repeat split; assumption.
  - destruct (fitness_table_returns f pop (fun i Hi => Hf i (Hpop i Hi)) [])
      as (table & Ht & _ & Hk); [intros kv []|].
    assert (Hne : pop <> []) by (intros ->; discriminate Hlen).
    destruct (breed_returns pop table Hne Hpop (fun x Hx => proj2 (Hk x) (or_introl Hx))
                POP_SIZE [] g) as (pop' & g' & Hb & Ht' & Hl'); [intros x []|].
    unfold bindM at 1. unfold lift. rewrite Ht. unfold bindM at 1. rewrite Hb.
    apply IH; [exact Ht'|exact Hl'].
Qed.

Lemma initial_population_returns n :
  forall g, exists pop g', initial_population n g = (Ok pop, g')
                           /\ of_table pop /\ length pop = n.
Proof.
  induction n as [|n IH]; intros g; cbn [initial_population].
  - exists [], g. split; [reflexivity|]. split; [intros x []|reflexivity].
  - destruct (random_choice_member (PyDict.keys ambulance_readiness) g)
      as (ind & Hind & Hin); [discriminate|].
    destruct (IH (rng_step g)) as (rest & g' & Hrest & Ht & Hl).
    unfold bindM at 1. rewrite Hind. unfold bindM at 1. rewrite Hrest.
    exists (ind :: rest), g'. split; [reflexivity|]. split; [|simpl; congruence].
    intros x [<-|Hx]; [exact Hin|apply Ht, Hx].
Qed.

Lemma evolve_returns (f : string -> res Q) g :
  (forall ind, In ind table_ids -> exists q, f ind = Ok q) ->
  exists pop g', evolve f g = (Ok pop, g') /\ of_table pop /\ length pop = POP_SIZE.
Proof.
  intros Hf. unfold evolve.
  destruct (initial_population_returns POP_SIZE g) as (pop0 & g0 & H0 & Ht0 & Hl0).
  unfold bindM. rewrite H0. apply generations_return; assumption.
Qed.


End GAFacts.



Module GATieFacts.
Import GA GAProps.

Lemma set_keeps_head (k : string) (v : Q) (first : string * Q) (table : list (string * Q)) :
  exists v' table', PyDict.set k v (first :: table) = (fst first, v') :: table'.
Proof.
  destruct first as [k0 v0]. simpl. destruct (decide (k = k0)) as [->|Hne]; eauto.
Qed.

Lemma fitness_table_keeps_head f population :
  forall first table table',
    fitness_table f population (first :: table) = Ok table' ->
    exists v rest, table' = (fst first, v) :: rest.
Proof.
  induction population as [|ind rest IH]; intros first table table';
    cbn [fitness_table].
  - intros [= <-]. destruct first. eauto.
  - destruct (f ind) as [q|e]; cbn [bind]; [|discriminate].
    destruct (set_keeps_head ind q first table) as (v' & t' & ->).
    intros H. apply (IH (fst first, v') t' table') in H. exact H.
Qed.

Lemma argmax_all_equal (c : Q) (first : string * Q) (rest : list (string * Q)) :
  (forall kv, In kv (first :: rest) -> snd kv = c) ->
  argmax (first :: rest) = Ok (fst first).
Proof.
  intros Hall. unfold argmax. f_equal. f_equal.
  induction rest as [|kv rest IH]; simpl; [reflexivity|].
  rewrite (Hall first) by (left; reflexivity).
  rewrite (Hall kv) by (right; left; reflexivity).
  rewrite SelectFacts.Qltb_irrefl.
  apply IH. intros kv' [<-|Hin]; apply Hall; [left; reflexivity|right; right; exact Hin].
Qed.

End GATieFacts.

(** X3.  When no ambulance is tracked every individual scores the sentinel,
    the tie goes to the earliest, and [select_best_ambulance] returns the
    first individual of the final population: the sentinel disqualifies
    nobody when nobody is tracked. *)
Theorem select_best_ambulance_none_tracked
  (env : Env) (accident_x accident_y : Q) (accident_edge : option string) (g : Rng) :
  exists first rest,
    GA.final_population env accident_x accident_y [] accident_edge g = first :: rest
    /\ fst (GA.select_best_ambulance env accident_x accident_y [] accident_edge g)
       = Ok first.
Proof.
  set (f := fun ind => GA.fitness env ind accident_x accident_y [] accident_edge).
  assert (Hf : forall ind, f ind = Ok GA.SENTINEL) by reflexivity.
  destruct (GAFacts.evolve_returns f g) as (pop & g' & Hev & Htab & Hlen).
  { intros ind _. eexists. apply Hf. }
  rewrite SelectFacts.select_unfold. unfold GA.final_population. fold f. rewrite Hev.
  cbn [fst]. destruct pop as [|first rest]; [discriminate Hlen|].
  exists first, rest. split; [reflexivity|].
  destruct (GAFacts.fitness_table_returns f (first :: rest)) with (table := @nil (string * Q))
    as (table & Ht & Hs & Hk).
  { intros ind _. eexists. apply Hf. }
  { intros kv []. }
  rewrite Ht. cbn [bind].
  cbn [GA.fitness_table] in Ht. rewrite Hf in Ht. cbn [bind PyDict.set] in Ht.
  destruct (GATieFacts.fitness_table_keeps_head f rest (first, GA.SENTINEL) [] table Ht)
    as (v & tl & ->).
  rewrite (GATieFacts.argmax_all_equal GA.SENTINEL).
  - cbn [bind fst].
    destruct (SelectFacts.route_of_key first (Htab first (or_introl eq_refl))) as [r ->].
    reflexivity.
  - intros kv Hin. specialize (Hs kv Hin). rewrite Hf in Hs. congruence.
Qed.

(** ** vehicle.py: what the ants find *)

Module TrailFacts.
Import Vehicle AcoProps TrailProps.

Lemma get_default_all_one (k : edge) (ph : list (edge * Q)) :
  all_one ph -> (PyDict.get_default k 1 ph == 1)%Q.
Proof.
  unfold PyDict.get_default, all_one. induction ph as [|[k0 v0] ph IH]; simpl; intros Hp.
  - reflexivity.
  - destruct (decide (k = k0)).
    + apply (Hp (k0, v0)). left. reflexivity.
    + apply IH. intros kv Hin. apply Hp. right. exact Hin.
Qed.

Lemma set_all_one (k : edge) (v : Q) (ph : list (edge * Q)) :
  (v == 1)%Q -> all_one ph -> all_one (PyDict.set k v ph).
Proof.
  unfold all_one. intros Hv. induction ph as [|[k0 v0] ph IH]; simpl; intros Hp kv Hin.
  - destruct Hin as [<-|[]]. exact Hv.
  - destruct (decide (k = k0)).
    + destruct Hin as [<-|Hin]; [exact Hv|]. apply Hp. right. exact Hin.
    + destruct Hin as [<-|Hin]; [apply (Hp (k0, v0)); left; reflexivity|].
      apply IH; [|exact Hin]. intros kv' Hin'. apply Hp. right. exact Hin'.
Qed.

(** Evaporation and deposit cancel at one. *)
Lemma deposit_all_one (vis : list edge) :
  forall ph, all_one ph -> all_one (deposit ph vis).
Proof.
  unfold deposit. induction vis as [|node vis IH]; intros ph Hp; simpl; [exact Hp|].
  apply IH. apply set_all_one; [|exact Hp].
  rewrite (get_default_all_one node ph Hp). reflexivity.
Qed.

Lemma trials_all_one graph blocked v :
  forall n col g col' g',
    all_one (pheromone_of col) ->
    trials n graph blocked v col g = (Ok col', g') ->
    all_one (pheromone_of col').
Proof.
  induction n as [|n IH]; intros col g col' g' Hp; simpl.
  - intros [= <- _]. exact Hp.
  - unfold bindM at 1. unfold trial, bindM.
    destruct (walk MAX_HOPS graph blocked (destination v) (pheromone_of col)
                (current_edge v) _ g) as [[a|e] g1]; [|discriminate].
    unfold ret. apply IH. simpl. apply deposit_all_one, Hp.
Qed.

Lemma initial_all_one graph : all_one (pheromone_of (initial_colony graph)).
Proof.
  intros kv Hin. simpl in Hin. apply in_map_iff in Hin.
  destruct Hin as (kv' & <- & _). reflexivity.
Qed.

End TrailFacts.

(** X4.  The pheromone update changes nothing: evaporation and deposit
    cancel at the initial value, so after any number of trials every
    pheromone still equals one and the ants are guided by the edge weights
    alone. *)
Theorem pheromone_stays_one
  (n : nat) (graph : graph_t) (blocked : edge) (v : Vehicle.t) (g g' : Rng)
  (col : Vehicle.colony) (node : edge) :
  Vehicle.trials n graph blocked v (TrailProps.initial_colony graph) g = (Ok col, g') ->
  (PyDict.get_default node 1 (Vehicle.pheromone_of col) == 1)%Q.
Proof.
  intros Htrials. apply TrailFacts.get_default_all_one.
  apply (TrailFacts.trials_all_one graph blocked v n (TrailProps.initial_colony graph)
           g col g'); [apply TrailFacts.initial_all_one|exact Htrials].
Qed.

Lemma pheromone_stays_one_witness :
  exists col g',
    Vehicle.trials Vehicle.NUM_ANTS Sample.grid (Some "E") Sample.veh_abc
      (TrailProps.initial_colony Sample.grid) (Sample.rng_const 0) = (Ok col, g')
    /\ (PyDict.get_default (Some "B") 1 (Vehicle.pheromone_of col) == 1)%Q.
Proof.
  destruct (Vehicle.trials Vehicle.NUM_ANTS Sample.grid (Some "E") Sample.veh_abc
              (TrailProps.initial_colony Sample.grid) (Sample.rng_const 0))
    as [[col|e] g'] eqn:Htrials.
  - exists col, g'. split; [reflexivity|].
    exact (pheromone_stays_one Vehicle.NUM_ANTS Sample.grid (Some "E") Sample.veh_abc
             (Sample.rng_const 0) g' col (Some "B") Htrials).
  - exfalso. vm_compute in Htrials. discriminate Htrials.
Defined.

Module PathFacts.
Import Vehicle AcoProps TrailProps.



Lemma last_snoc {A : Type} (l : list A) (x d : A) : List.last (l ++ [x]) d = x.
Proof. apply List.last_last. Qed.






End PathFacts.

Module RouteShapeFacts.
Import Vehicle AcoProps TrailProps.




End RouteShapeFacts.



(** ** vehicle.py: which accidents a vehicle hears *)

Module HearFacts.
Import Vehicle HearProps.





End HearFacts.




(** X8.  [map_position_to_edge] does not look at the position: every node
    of a graph of strings is at distance zero, the strict comparison keeps
    the first, and the answer is the first node of the graph, or the
    vehicle's current edge when the graph is empty or its first node is the
    empty string. *)
Theorem map_position_to_edge_is_first_node
  (v : Vehicle.t) (position : pos) (graph : graph_t) :
  Vehicle.map_position_to_edge v position graph
  = match graph with
    | [] => Vehicle.current_edge v
    | (node, _) :: _ =>
        if String.eqb node "" then Vehicle.current_edge v else Some node
    end.
Proof.
  unfold Vehicle.map_position_to_edge. destruct graph as [|[node nbrs] rest];
    [reflexivity|].
  cbn [fold_left fst snd].
  assert (Hkeep : forall (l : graph_t),
             fold_left
               (fun (acc : option Q * option string) (entry : string * list (string * Q)) =>
                  if match fst acc with
                     | Some m => Qltb 0 m
                     | None => true
                     end
                  then (Some 0%Q, Some (fst entry)) else acc)
               l (Some 0%Q, Some node) = (Some 0%Q, Some node)).
  { induction l as [|entry l IH]; [reflexivity|]. cbn [fold_left fst]. exact IH. }
  rewrite Hkeep. reflexivity.
Qed.

(** ** cen_broadcast.py: the nearest node, registration and the sweep *)

Module NearestFacts.
Import CEN SweepProps.



End NearestFacts.


Module RegisterFacts.
Import CEN SweepProps.

Lemma set_fresh {V : Type} (k : string) (v : V) (d : list (string * V)) :
  PyDict.mem k d = false -> PyDict.set k v d = d ++ [(k, v)].
Proof.
  unfold PyDict.mem. induction d as [|[k0 v0] d IH]; simpl; [reflexivity|].
  destruct (decide (k = k0)); [discriminate|].
  intros H. rewrite IH by exact H. reflexivity.
Qed.

Lemma reset_entries_not_due (c : t) (now : Q) (items : list (string * accident)) :
  (0 < interval c)%Q ->
  forall kv, In kv (BroadcastProps.reset_due c now items) -> due c now (snd kv) = false.
Proof.
  intros Hpos kv Hin. unfold BroadcastProps.reset_due in Hin.
  apply in_map_iff in Hin. destruct Hin as ([id data] & <- & _). simpl.
  destruct (due c now data) eqn:Hdue; [|exact Hdue].
  unfold due, with_last_time, Qleb; simpl.
  destruct (Qle_bool (interval c) (now - now)) eqn:Hle; [|reflexivity].
  apply Qle_bool_iff in Hle. exfalso.
  assert (Hz : (now - now == 0)%Q) by ring.
  rewrite Hz in Hle. exact (Qlt_not_le _ _ Hpos Hle).
Qed.

Lemma sweep_quiet env (c : t) now graph comm_range todo :
  (forall kv, In kv todo -> due c now (snd kv) = false) ->
  forall done_ vs lg g,
    sweep env c now graph comm_range done_ todo vs lg g
    = ({| accidents_after := done_ ++ todo; vehicles_after := vs; log_after := lg |}, g).
Proof.
  induction todo as [|[acc_id data] rest IH]; intros Hq done_ vs lg g; simpl.
  - rewrite app_nil_r. reflexivity.
  - assert (Hd : due c now data = false) by (apply (Hq (acc_id, data)); left; reflexivity).
    rewrite Hd.
    rewrite IH by (intros kv Hin; apply Hq; right; exact Hin).
    rewrite <- app_assoc. reflexivity.
Qed.

End RegisterFacts.

(** X10.  Registering an accident id that the broadcaster does not hold
    adds one entry after the existing ones, registered by the node that
    [get_nearest_edge_node] gives for the location and last broadcast at the
    registration time; the entries already there are untouched. *)
Theorem register_new_appends
  (c : CEN.t) (id : string) (loc : pos) (sim_time : Q) (involved : list string) :
  PyDict.mem id (CEN.accidents c) = false ->
  CEN.accidents (CEN.register id loc sim_time involved c)
  = CEN.accidents c
      ++ [(id, {| location := loc; last_time := sim_time;
                  registered_by_edge := CEN.get_nearest_edge_node c loc;
                  registered_by_name := CEN.cen_name (CEN.get_nearest_edge_node c loc);
                  vehicles_involved := list_to_set involved |})].
Proof.
  intros Hfresh. unfold CEN.register; simpl. apply RegisterFacts.set_fresh, Hfresh.
Qed.

Lemma register_new_appends_witness :
  PyDict.mem "ACC_002" (CEN.accidents Sample.cen1) = false
  /\ PyDict.keys
       (CEN.accidents (CEN.register "ACC_002" (190, 170)%Q 42 ["veh7"] Sample.cen1))
     = ["ACC_001"; "ACC_002"].
Proof.
  split; [reflexivity|].
  rewrite (register_new_appends Sample.cen1 "ACC_002" (190, 170)%Q 42 ["veh7"] eq_refl).
  reflexivity.
Defined.

(** X11.  A broadcast leaves no accident due at the same instant: with a
    positive interval, a second [broadcast] at the time of the first processes
    nothing, whatever vehicles, graph and range it is given; the accidents, the
    vehicles and the log come out as they went in. *)
Theorem broadcast_again_at_once_is_idle
  (env env' : Env) (now : Q) (vs vs' : list (string * Vehicle.t)) (graph graph' : graph_t)
  (comm_range comm_range' : Q) (c : CEN.t) (lg lg' : list event) (g g' : Rng) :
  (0 < CEN.interval c)%Q ->
  CEN.broadcast env' now vs' graph' comm_range'
    (SweepProps.after_broadcast c (fst (CEN.broadcast env now vs graph comm_range c lg g)))
    lg' g'
  = ({| CEN.accidents_after :=
          CEN.accidents_after (fst (CEN.broadcast env now vs graph comm_range c lg g));
        CEN.vehicles_after := vs';
        CEN.log_after := lg' |}, g').
Proof.
  intros Hpos. unfold CEN.broadcast, SweepProps.after_broadcast.
  cbn [CEN.accidents].
  destruct (BroadcastFacts.sweep_result env c now graph comm_range (CEN.accidents c)
              [] vs lg g) as [_ Ha].
  rewrite Ha. cbn [app].
  rewrite RegisterFacts.sweep_quiet; [reflexivity|].
  intros kv Hin.
  exact (RegisterFacts.reset_entries_not_due c now (CEN.accidents c) Hpos kv Hin).
Qed.

Lemma broadcast_again_at_once_witness :
  (0 < CEN.interval Sample.cen1)%Q
  /\ map (fun kv => last_time (snd kv))
         (CEN.accidents_after
            (fst (CEN.broadcast Sample.env_reject 10 [("veh5", Sample.veh5)] Sample.grid 200
                    (SweepProps.after_broadcast Sample.cen1
                       (fst (CEN.broadcast Sample.env_reject 10 [("veh5", Sample.veh5)]
                               Sample.grid 200 Sample.cen1 [] (Sample.rng_const 0))))
                    [] (Sample.rng_const 0))))
     = [10%Q].
Proof.
  split; [reflexivity|].
  rewrite (broadcast_again_at_once_is_idle Sample.env_reject Sample.env_reject 10
             [("veh5", Sample.veh5)] [("veh5", Sample.veh5)] Sample.grid Sample.grid 200 200
             Sample.cen1 [] [] (Sample.rng_const 0) (Sample.rng_const 0) eq_refl).
  vm_compute. reflexivity.
Defined.

(** ** run_simulation.py: who is in range *)

Module RangeFacts.
Import Sim.

Section Sorting.
Context {A : Type} (key : A -> Q).





Lemma insert_by_length (x : A) (l : list A) :
  length (insert_by key x l) = S (length l).
Proof.
  induction l as [|z l IH]; simpl; [reflexivity|].
  destruct (Qleb (key x) (key z)); simpl; [reflexivity|]. rewrite IH. reflexivity.
Qed.

Lemma sort_by_length (l : list A) : length (sort_by key l) = length l.
Proof.
  unfold sort_by. induction l as [|x l IH]; simpl; [reflexivity|].
  rewrite insert_by_length, IH. reflexivity.
Qed.
End Sorting.

End RangeFacts.


(** ** run_simulation.py: what the relay keeps *)

Module RelayMoreFacts.
Import Sim RelayProps.

Lemma relay_clone_id env m v : message_id (relay_clone env m v) = message_id m.
Proof. reflexivity. Qed.

Lemma same_alert_refl m : same_alert m m.
Proof. repeat split. Qed.

Lemma same_alert_trans m1 m2 m3 : same_alert m1 m2 -> same_alert m2 m3 -> same_alert m1 m3.
Proof.
  unfold same_alert. intros (A1 & A2 & A3 & A4) (B1 & B2 & B3 & B4).
  repeat split; congruence.
Qed.

Lemma same_alert_clone env m v : same_alert m (relay_clone env m v).
Proof. repeat split. Qed.

Lemma set_members (mid : string) (l : list V2VMessage)
  (h : list (string * list V2VMessage)) (m : V2VMessage) :
  In m (concat (map snd (PyDict.set mid l h))) ->
  In m (concat (map snd h)) \/ In m l.
Proof.
  induction h as [|[k l0] h IH]; simpl.
  - rewrite app_nil_r. intros H. right. exact H.
  - destruct (decide (mid = k)) as [->|Hne]; simpl.
    + rewrite !in_app_iff. intuition.
    + rewrite !in_app_iff. intros [H|H]; [left; left; exact H|].
      destruct (IH H) as [H'|H']; [left; right; exact H'|right; exact H'].
Qed.

Lemma set_append_members (mid : string) (next : V2VMessage)
  (h : list (string * list V2VMessage)) (m : V2VMessage) :
  In m (concat (map snd (PyDict.set mid (PyDict.get_default mid [] h ++ [next]) h))) ->
  In m (concat (map snd h)) \/ m = next.
Proof.
  unfold PyDict.get_default. induction h as [|[k l] h IH]; simpl.
  - intros [H|[]]. right. symmetry. exact H.
  - destruct (decide (mid = k)) as [->|Hne]; simpl.
    + rewrite !in_app_iff. simpl. intuition.
    + rewrite !in_app_iff. intros [H|H]; [left; left; exact H|].
      destruct (IH H) as [H'|H']; [left; right; exact H'|right; exact H'].
Qed.

Lemma record_clone_simple next w :
  NoDup (propagation_path next) -> paths_simple w -> paths_simple (record_clone next w).
Proof.
  intros Hn Hw m Hin. unfold recorded, record_clone in Hin. simpl in Hin.
  apply set_append_members in Hin. destruct Hin as [Hin| ->]; [apply Hw, Hin|exact Hn].
Qed.

Lemma clone_path_simple env m v :
  NoDup (propagation_path m) ->
  existsb (String.eqb v) (propagation_path m) = false ->
  NoDup (propagation_path (relay_clone env m v)).
Proof.
  intros Hn Hfresh. change (NoDup (propagation_path m ++ [v])).
  apply NoDup_app. repeat split; [exact Hn| |apply NoDup_singleton].
  intros x Hx Hx'. apply list_elem_of_singleton in Hx'. subst x.
  apply list_elem_of_In in Hx.
  assert (Hex : existsb (String.eqb v) (propagation_path m) = true).
  { apply existsb_exists. exists v. split; [exact Hx|apply String.eqb_refl]. }
  congruence.
Qed.

Lemma propagate_simple env fuel :
  forall m vid p w b w',
    NoDup (propagation_path m) -> paths_simple w ->
    propagate fuel env m vid p w = Some (b, w') ->
    paths_simple w'.
Proof.
  induction fuel as [|fuel IH]; intros m vid p w b w' Hm Hw; [discriminate|].
  cbn -[Nat.leb MAX_HOP_COUNT].
  destruct (MAX_HOP_COUNT <=? hop_count m)%nat; [intros [= _ <-]; exact Hw|].
  destruct (first_undelivered w (message_id m) (find_edge_nodes_in_range w p))
    as [[edge_id node]|]; [intros [= _ <-]; exact Hw|].
  generalize (find_vehicles_in_range env p vid). intros cands. revert w Hw.
  induction cands as [|[[vehicle_id d] vehicle_pos] rest IHc]; intros w Hw;
    [intros [= _ <-]; exact Hw|].
  destruct (existsb (String.eqb vehicle_id) (propagation_path m)) eqn:Hseen;
    [apply IHc, Hw|].
  destruct (propagate fuel env (relay_clone env m vehicle_id) vehicle_id vehicle_pos
              (record_clone (relay_clone env m vehicle_id) w)) as [[[|] w1]|] eqn:Hrec;
    [| |discriminate].
  - intros [= _ <-]. eapply IH; [| |exact Hrec].
    + apply clone_path_simple; assumption.
    + apply record_clone_simple; [apply clone_path_simple; assumption|exact Hw].
  - apply IHc. eapply IH; [| |exact Hrec].
    + apply clone_path_simple; assumption.
    + apply record_clone_simple; [apply clone_path_simple; assumption|exact Hw].
Qed.

Lemma first_undelivered_fresh w mid in_range edge_id node :
  first_undelivered w mid in_range = Some (edge_id, node) ->
  PyDict.get edge_id (edge_nodes w) = Some node /\ mid ∉ message_cache node.
Proof.
  induction in_range as [|[eid d] rest IH]; simpl; [discriminate|].
  destruct (PyDict.get eid (edge_nodes w)) as [n|] eqn:Hget; [|exact IH].
  destruct (bool_decide (mid ∈ message_cache n)) eqn:Hc; [exact IH|].
  intros [= <- <-]. split; [exact Hget|]. apply bool_decide_eq_false in Hc. exact Hc.
Qed.

Lemma propagate_delivery env fuel :
  forall m vid p w b w',
    propagate fuel env m vid p w = Some (b, w') ->
    if b then delivered_once env m w w'
    else edge_nodes w' = edge_nodes w.
Proof.
  induction fuel as [|fuel IH]; intros m vid p w b w'; [discriminate|].
  cbn -[Nat.leb MAX_HOP_COUNT].
  destruct (MAX_HOP_COUNT <=? hop_count m)%nat; [intros [= <- <-]; reflexivity|].
  destruct (first_undelivered w (message_id m) (find_edge_nodes_in_range w p))
    as [[edge_id node]|] eqn:Hfirst.
  - intros [= <- <-]. apply first_undelivered_fresh in Hfirst. destruct Hfirst as [Hg Hc].
    exists edge_id, node, m.
    split; [exact Hg|]. split; [exact Hc|]. split; [apply same_alert_refl|reflexivity].
  - clear Hfirst. generalize (find_vehicles_in_range env p vid). intros cands.
    assert (Hgen : forall w0, edge_nodes w0 = edge_nodes w ->
              (fix relay (cands : list (string * Q * pos)) (w : world) {struct cands}
                 : option (bool * world) :=
                 match cands with
                 | [] => Some (false, w)
                 | (vehicle_id, _, vehicle_pos) :: rest =>
                     if existsb (String.eqb vehicle_id) (propagation_path m)
                     then relay rest w
                     else
                       match propagate fuel env (relay_clone env m vehicle_id) vehicle_id
                               vehicle_pos (record_clone (relay_clone env m vehicle_id) w)
                       with
                       | Some (true, w') => Some (true, w')
                       | Some (false, w') => relay rest w'
                       | None => None
                       end
                 end) cands w0 = Some (b, w') ->
              if b then delivered_once env m w w'
              else edge_nodes w' = edge_nodes w).
    { induction cands as [|[[vehicle_id d] vehicle_pos] rest IHc]; intros w0 Hw0.
      - intros [= <- <-]. exact Hw0.
      - destruct (existsb (String.eqb vehicle_id) (propagation_path m));
          [apply IHc, Hw0|].
        destruct (propagate fuel env (relay_clone env m vehicle_id) vehicle_id vehicle_pos
                    (record_clone (relay_clone env m vehicle_id) w0))
          as [[[|] w1]|] eqn:Hrec; [| |discriminate].
        + intros [= <- <-]. apply IH in Hrec. simpl in Hrec.
          destruct Hrec as (edge_id & node & m' & Hg & Hc & Hid & He).
          cbn [edge_nodes record_clone] in Hg, He. rewrite Hw0 in Hg, He.
          exists edge_id, node, m'.
          split; [exact Hg|]. split; [exact Hc|]. split; [|exact He].
          eapply same_alert_trans; [apply same_alert_clone|exact Hid].
        + apply IH in Hrec. cbn [edge_nodes record_clone] in Hrec. apply IHc. rewrite Hrec. exact Hw0. }
    apply Hgen. reflexivity.
Qed.





End RelayMoreFacts.

(** X13.  An emergency alert never travels in a circle.  When no message
    of the history names a node twice in its propagation path, the relay
    started by [broadcast_emergency_alert] returns, and afterwards still no
    recorded message names a node twice: a vehicle is never handed a message
    it has already carried. *)
Theorem emergency_alert_never_revisits (env : Env) (mid source_vehicle_id : string)
  (loc : pos) (collision_pair : string * string) (acc_id : string) (w : Sim.world) :
  RelayProps.paths_simple w ->
  exists b w',
    Sim.broadcast_emergency_alert env mid source_vehicle_id loc collision_pair acc_id w
    = Some (b, w')
    /\ RelayProps.paths_simple w'.
Proof.
  intros Hw. unfold Sim.broadcast_emergency_alert.
  destruct (Sim.get_vehicle_position env source_vehicle_id) as [source_position|];
    [|exists false, w; split; [reflexivity|exact Hw]].
  cbv zeta.
  match goal with
  | |- exists b w', Sim.propagate_v2v_message env ?m ?v ?p ?w0 = _ /\ _ =>
      destruct (RelayFacts.propagate_v2v_message_returns env m v p w0) as [[b w'] Hr];
      exists b, w'; split; [exact Hr|];
      eapply (RelayMoreFacts.propagate_simple env _ m v p w0 b w'); [| |exact Hr]
  end.
  - apply NoDup_singleton.
  - intros m Hin. unfold RelayProps.recorded in Hin. cbn [Sim.message_history] in Hin.
    apply RelayMoreFacts.set_members in Hin. destruct Hin as [Hin|[<-|[]]].
    + apply Hw, Hin.
    + apply NoDup_singleton.
Qed.

Lemma emergency_alert_never_revisits_witness :
  exists b w',
    Sim.broadcast_emergency_alert Sample.env_row "EMERGENCY_0" "veh0" (1000, 1000)%Q
      ("veh0", "veh1") "ACC_001" Sample.world0 = Some (b, w')
    /\ RelayProps.paths_simple w'.
Proof.
  apply (emergency_alert_never_revisits Sample.env_row "EMERGENCY_0" "veh0" (1000, 1000)%Q
           ("veh0", "veh1") "ACC_001" Sample.world0).
  intros m Hin. destruct Hin.
Defined.

(** X14.  A relay reaches at most one edge node.  [propagate_v2v_message]
    always returns; when it reports success exactly one edge node changed,
    one that had not cached the message id, and it received a message
    carrying the same alert (id, type, payload and origin); when it reports
    failure no edge node changed at all. *)
Theorem relay_reaches_at_most_one_edge_node (env : Env) (m : Sim.V2VMessage)
  (current_vehicle_id : string) (current_position : pos) (w : Sim.world) :
  match Sim.propagate_v2v_message env m current_vehicle_id current_position w with
  | Some (true, w') => RelayProps.delivered_once env m w w'
  | Some (false, w') => Sim.edge_nodes w' = Sim.edge_nodes w
  | None => False
  end.
Proof.
  destruct (RelayFacts.propagate_v2v_message_returns env m current_vehicle_id
              current_position w) as [[b w'] Hr].
  rewrite Hr. unfold Sim.propagate_v2v_message in Hr.
  apply RelayMoreFacts.propagate_delivery in Hr. destruct b; exact Hr.
Qed.


(** ** run_simulation.py: what the detection loop reports *)

Module DetectMoreFacts.
Import Sim DetectProps AlarmProps.



End DetectMoreFacts.


(** ** run_simulation.py: the registration loop *)

Module LoopFacts.
Import Loop.




End LoopFacts.

Module IdFacts.
Import Loop.





End IdFacts.



(** ** run_simulation.py: what the edge nodes count *)

Module CountFacts.
Import Sim RelayProps CountProps.

Lemma set_entries {V : Type} (k : string) (v : V) (d : list (string * V)) (kv : string * V) :
  In kv (PyDict.set k v d) -> kv = (k, v) \/ In kv d.
Proof.
  induction d as [|[k0 v0] d IH]; simpl.
  - intros [H|[]]. left. symmetry. exact H.
  - destruct (decide (k = k0)) as [->|Hne]; simpl.
    + intros [H|H]; [left; symmetry; exact H|right; right; exact H].
    + intros [H|H]; [right; left; exact H|].
      destruct (IH H) as [H'|H']; [left; exact H'|right; right; exact H'].
Qed.

Lemma receive_counted env m node :
  message_id m ∉ message_cache node ->
  total_messages_received node = size (message_cache node)
  /\ (length (accident_alerts_received node) <= total_messages_received node)%nat ->
  total_messages_received (receive env m node) = size (message_cache (receive env m node))
  /\ (length (accident_alerts_received (receive env m node))
      <= total_messages_received (receive env m node))%nat.
Proof.
  intros Hfresh [Ht Ha]. unfold receive. cbv zeta.
  cbn [total_messages_received message_cache accident_alerts_received]. split.
  - rewrite size_union by set_solver. rewrite size_singleton. lia.
  - destruct (String.eqb (message_type m) "EMERGENCY"); [rewrite length_app; cbn [length]|];
      lia.
Qed.

Lemma propagate_counted env m vid p w b w' :
  counted w -> propagate_v2v_message env m vid p w = Some (b, w') -> counted w'.
Proof.
  intros Hw Hr. unfold propagate_v2v_message in Hr.
  apply RelayMoreFacts.propagate_delivery in Hr. destruct b.
  - destruct Hr as (edge_id & node & m' & Hg & Hc & Hs & He).
    intros eid n Hin. rewrite He in Hin. apply set_entries in Hin.
    destruct Hin as [[= -> ->]|Hin]; [|exact (Hw eid n Hin)].
    apply receive_counted.
    + destruct Hs as [Hid _]. rewrite Hid. exact Hc.
    + apply (Hw edge_id). apply AcoFacts.get_in, Hg.
  - intros eid n Hin. rewrite Hr in Hin. exact (Hw eid n Hin).
Qed.

End CountFacts.

(** X19.  An edge node counts every message once.  When each edge node's
    [total_messages_received] is the number of message ids in its cache, and
    it holds no more alerts than that, the same is true after
    [broadcast_emergency_alert], which always returns: a node never takes a
    message id a second time. *)
Theorem edge_nodes_count_distinct_messages (env : Env) (mid source_vehicle_id : string)
  (loc : pos) (collision_pair : string * string) (acc_id : string) (w : Sim.world) :
  CountProps.counted w ->
  match Sim.broadcast_emergency_alert env mid source_vehicle_id loc collision_pair acc_id w
  with
  | Some (_, w') => CountProps.counted w'
  | None => False
  end.
Proof.
  intros Hw. unfold Sim.broadcast_emergency_alert.
  destruct (Sim.get_vehicle_position env source_vehicle_id) as [source_position|];
    [|exact Hw].
  cbv zeta.
  match goal with
  | |- match Sim.propagate_v2v_message env ?m ?v ?p ?w0 with _ => _ end =>
      destruct (RelayFacts.propagate_v2v_message_returns env m v p w0) as [[b w'] Hr];
      rewrite Hr; apply (CountFacts.propagate_counted env m v p w0 b w'); [|exact Hr]
  end.
  exact Hw.
Qed.

Lemma edge_nodes_count_distinct_witness :
  CountProps.counted Sample.world0
  /\ match Sim.broadcast_emergency_alert Sample.env_row "EMERGENCY_0" "veh0"
             (1000, 1000)%Q ("veh0", "veh1") "ACC_001" Sample.world0
     with
     | Some (_, w') => CountProps.counted w'
     | None => False
     end.
Proof.
  assert (H : CountProps.counted Sample.world0).
  { intros edge_id node Hin. cbn in Hin.
    destruct Hin as [[= <- <-]|[[= <- <-]|[[= <- <-]|[[= <- <-]|[]]]]];
      cbn [total_messages_received message_cache accident_alerts_received length];
      rewrite size_empty; split; lia. }
  split; [exact H|].
  exact (edge_nodes_count_distinct_messages Sample.env_row "EMERGENCY_0" "veh0"
           (1000, 1000)%Q ("veh0", "veh1") "ACC_001" Sample.world0 H).
Defined.

(** ** run_simulation.py: which edge node takes a message *)

Module NodeFacts.
Import Sim.





End NodeFacts.



(** ** route_generator.py: the routes found *)

Module RouteFacts.
Import RouteGen RouteProps.

Section Explore.
Variable rec : string -> option (res (list (list string))).
Variable path : list string.

Local Notation explore :=
  (fix explore (neighbors : list string) (routes : list (list string))
     : option (res (list (list string))) :=
     match neighbors with
     | [] => Some (Ok routes)
     | neighbor :: rest =>
         if existsb (String.eqb neighbor) path then explore rest routes
         else
           match rec neighbor with
           | None => None
           | Some (Raise e) => Some (Raise e)
           | Some (Ok found) => explore rest (routes ++ found)
           end
     end).

Lemma explore_sound (neighbors : list string) :
  forall routes result,
    explore neighbors routes = Some (Ok result) ->
    forall r, In r result ->
      In r routes
      \/ exists n found,
           In n neighbors /\ existsb (String.eqb n) path = false
           /\ rec n = Some (Ok found) /\ In r found.
Proof.
  induction neighbors as [|n rest IH]; intros routes result.
  - intros [= <-] r Hr. left. exact Hr.
  - destruct (existsb (String.eqb n) path) eqn:Hseen.
    + intros Hrun r Hr. destruct (IH _ _ Hrun r Hr) as [H|(n' & f & Hn & Hs & Hf & Hin)];
        [left; exact H|].
      right. exists n', f. split; [right; exact Hn|]. split; [exact Hs|]. split; assumption.
    + destruct (rec n) as [[found|e]|] eqn:Hrec; [|discriminate|discriminate].
      intros Hrun r Hr. destruct (IH _ _ Hrun r Hr) as [H|(n' & f & Hn & Hs & Hf & Hin)].
      * apply in_app_iff in H. destruct H as [H|H]; [left; exact H|].
        right. exists n, found. split; [left; reflexivity|]. split; [exact Hseen|].
        split; [exact Hrec|exact H].
      * right. exists n', f. split; [right; exact Hn|]. split; [exact Hs|].
        split; assumption.
Qed.

Lemma explore_complete (neighbors : list string) :
  forall routes result,
    explore neighbors routes = Some (Ok result) ->
    (forall r, In r routes -> In r result)
    /\ forall n, In n neighbors -> existsb (String.eqb n) path = false ->
         exists found, rec n = Some (Ok found) /\ forall r, In r found -> In r result.
Proof.
  induction neighbors as [|n rest IH]; intros routes result.
  - intros [= <-]. split; [auto|intros n []].
  - destruct (existsb (String.eqb n) path) eqn:Hseen.
    + intros Hrun. destruct (IH _ _ Hrun) as [Hacc Hn]. split; [exact Hacc|].
      intros n' [<-|Hin] Hs; [congruence|apply Hn; assumption].
    + destruct (rec n) as [[found|e]|] eqn:Hrec; [|discriminate|discriminate].
      intros Hrun. destruct (IH _ _ Hrun) as [Hacc Hn]. split.
      * intros r Hr. apply Hacc, in_app_iff. left. exact Hr.
      * intros n' [<-|Hin] Hs; [|apply Hn; assumption].
        exists found. split; [exact Hrec|]. intros r Hr. apply Hacc, in_app_iff.
        right. exact Hr.
Qed.

Lemma explore_returns (neighbors : list string) :
  (forall n, In n neighbors -> existsb (String.eqb n) path = false ->
             exists found, rec n = Some (Ok found)) ->
  forall routes, exists result, explore neighbors routes = Some (Ok result).
Proof.
  induction neighbors as [|n rest IH]; intros Hrec routes; [eexists; reflexivity|].
  destruct (existsb (String.eqb n) path) eqn:Hseen.
  - apply IH. intros n' Hin. apply Hrec. right. exact Hin.
  - destruct (Hrec n (or_introl eq_refl) Hseen) as [found Hf]. rewrite Hf.
    apply IH. intros n' Hin. apply Hrec. right. exact Hin.
Qed.

End Explore.

Lemma existsb_eqb_false (x : string) (l : list string) :
  existsb (String.eqb x) l = false <-> ~ In x l.
Proof.
  split.
  - intros H Hin.
    assert (Ht : existsb (String.eqb x) l = true).
    { apply existsb_exists. exists x. split; [exact Hin|apply String.eqb_refl]. }
    congruence.
  - intros H. destruct (existsb (String.eqb x) l) eqn:E; [|reflexivity].
    apply existsb_exists in E. destruct E as (y & Hy & Heq).
    apply String.eqb_eq in Heq. subst y. contradiction.
Qed.

Lemma existsb_eqb_true (x : string) (l : list string) :
  existsb (String.eqb x) l = true <-> In x l.
Proof.
  split.
  - intros E. apply existsb_exists in E. destruct E as (y & Hy & Heq).
    apply String.eqb_eq in Heq. subst y. exact Hy.
  - intros Hin. apply existsb_exists. exists x. split; [exact Hin|apply String.eqb_refl].
Qed.

Lemma continues_step path start max_depth neighbors n r :
  PyDict.get start edges = Some neighbors -> In n neighbors ->
  continues (path ++ [start]) n max_depth r -> continues path start max_depth r.
Proof.
  intros Hg Hn (ext & -> & Hl & Hnd & Hb & H2 & Hm).
  exists (n :: ext). rewrite <- app_assoc in *. cbn [app] in *.
  split; [reflexivity|]. split; [|repeat split; assumption].
  split; [exists neighbors; split; assumption|exact Hl].
Qed.

Lemma find_routes_sound fuel :
  forall start path max_depth routes,
    NoDup (path ++ [start]) ->
    path = [] \/ (Z.of_nat (length path) < max_depth)%Z ->
    find_routes_fuel fuel start (Some path) max_depth = Some (Ok routes) ->
    Forall (continues path start max_depth) routes.
Proof.
  induction fuel as [|fuel IH]; intros start path max_depth routes Hnd Hlen; [discriminate|].
  cbn [find_routes_fuel].
  set (routes0 := if existsb (String.eqb start) boundary_nodes
                     && (1 <? length (path ++ [start]))%nat
                  then [path ++ [start]] else []).
  assert (H0 : forall r, In r routes0 -> continues path start max_depth r).
  { subst routes0. intros r.
    destruct (existsb (String.eqb start) boundary_nodes) eqn:Hb; cbn [andb]; [|intros []].
    destruct (1 <? length (path ++ [start]))%nat eqn:Hl; [|intros []].
    intros [<-|[]]. apply Nat.ltb_lt in Hl. apply existsb_eqb_true in Hb.
    exists []. split; [reflexivity|]. split; [exact I|]. split; [exact Hnd|].
    split; [exists start; split; [apply last_snoc|exact Hb]|].
    split; [lia|]. rewrite length_app in *. cbn [length] in *.
    destruct Hlen as [->|Hlen]; [cbn in Hl; lia|lia]. }
  destruct (max_depth <=? Z.of_nat (length (path ++ [start])))%Z eqn:Hdepth.
  - intros [= <-]. apply List.Forall_forall. exact H0.
  - apply Z.leb_gt in Hdepth.
    destruct (PyDict.get start edges) as [neighbors|] eqn:Hget; [|discriminate].
    intros Hrun. apply List.Forall_forall. intros r Hr.
    destruct (explore_sound (fun n => find_routes_fuel fuel n (Some (path ++ [start]))
                                        max_depth)
                (path ++ [start]) neighbors routes0 routes Hrun r Hr)
      as [Hin|(n & found & Hn & Hseen & Hrec & Hin)]; [apply H0, Hin|].
    apply (continues_step path start max_depth neighbors n r Hget Hn).
    assert (Hf : Forall (continues (path ++ [start]) n max_depth) found).
    { apply (IH n (path ++ [start]) max_depth found); [|right; exact Hdepth|exact Hrec].
      apply NoDup_app. split; [exact Hnd|]. split; [|apply NoDup_singleton].
      intros x Hx Hx'. apply list_elem_of_singleton in Hx'. subst x.
      apply existsb_eqb_false in Hseen. apply Hseen, list_elem_of_In, Hx. }
    rewrite List.Forall_forall in Hf. apply Hf, Hin.
Qed.

Lemma find_routes_complete fuel :
  forall start path max_depth routes,
    find_routes_fuel fuel start (Some path) max_depth = Some (Ok routes) ->
    forall r, continues path start max_depth r -> In r routes.
Proof.
  induction fuel as [|fuel IH]; intros start path max_depth routes; [discriminate|].
  cbn [find_routes_fuel].
  set (routes0 := if existsb (String.eqb start) boundary_nodes
                     && (1 <? length (path ++ [start]))%nat
                  then [path ++ [start]] else []).
  intros Hrun r (ext & -> & Hl & Hnd & (b & Hlast & Hb) & H2 & Hm).
  destruct ext as [|n ext].
  - assert (Hin0 : In (path ++ [start]) routes0).
    { subst routes0. rewrite last_snoc in Hlast. injection Hlast as <-.
      apply existsb_eqb_true in Hb. rewrite Hb.
      assert (Hl1 : (1 <? length (path ++ [start]))%nat = true) by (apply Nat.ltb_lt; lia).
      rewrite Hl1. left. reflexivity. }
    destruct (max_depth <=? Z.of_nat (length (path ++ [start])))%Z;
      [injection Hrun as <-; exact Hin0|].
    destruct (PyDict.get start edges) as [neighbors|]; [|discriminate].
    apply (explore_complete _ _ _ _ _ Hrun). exact Hin0.
  - assert (Hdepth : (max_depth <=? Z.of_nat (length (path ++ [start])))%Z = false).
    { apply Z.leb_gt. rewrite !length_app in *. cbn [length] in *. lia. }
    rewrite Hdepth in Hrun.
    destruct Hl as [(neighbors & Hget & Hn) Hl]. rewrite Hget in Hrun.
    assert (Hseen : existsb (String.eqb n) (path ++ [start]) = false).
    { apply existsb_eqb_false. intros Hin.
      replace (path ++ start :: n :: ext) with ((path ++ [start]) ++ n :: ext) in Hnd
        by (rewrite <- app_assoc; reflexivity).
      apply NoDup_app in Hnd. destruct Hnd as (_ & Hdisj & _).
      apply (Hdisj n); [apply list_elem_of_In, Hin|]. apply list_elem_of_here. }
    destruct (proj2 (explore_complete _ _ _ _ _ Hrun) n Hn Hseen) as (found & Hrec & Hsub).
    apply Hsub. apply (IH n (path ++ [start]) max_depth found Hrec).
    exists ext. rewrite <- app_assoc. cbn [app].
    split; [reflexivity|]. split; [exact Hl|]. split; [exact Hnd|].
    split; [exists b; split; assumption|]. split; assumption.
Qed.

Lemma edges_closed : closed.
Proof.
  assert (Hall : forallb
            (fun kv => forallb (fun n => PyDict.mem n edges) (snd kv)) edges = true)
    by (vm_compute; reflexivity).
  intros k neighbors n Hget Hn. apply AcoFacts.get_in in Hget.
  rewrite forallb_forall in Hall. specialize (Hall _ Hget). cbn [snd] in Hall.
  rewrite forallb_forall in Hall. specialize (Hall _ Hn).
  unfold PyDict.mem in Hall. destruct (PyDict.get n edges) as [nb|]; [|discriminate].
  exists nb. reflexivity.
Qed.

Lemma find_routes_returns fuel :
  forall start path max_depth,
    (Z.to_nat (max_depth - Z.of_nat (length (path ++ [start]))) < fuel)%nat ->
    PyDict.mem start edges = true ->
    exists routes, find_routes_fuel fuel start (Some path) max_depth = Some (Ok routes).
Proof.
  induction fuel as [|fuel IH]; intros start path max_depth Hfuel Hkey; [lia|].
  cbn [find_routes_fuel].
  destruct (max_depth <=? Z.of_nat (length (path ++ [start])))%Z eqn:Hdepth;
    [eexists; reflexivity|].
  apply Z.leb_gt in Hdepth. unfold PyDict.mem in Hkey.
  destruct (PyDict.get start edges) as [neighbors|] eqn:Hget; [|discriminate].
  apply explore_returns. intros n Hn _.
  apply IH.
  - rewrite !length_app in *. cbn [length] in *. lia.
  - destruct (edges_closed start neighbors n Hget Hn) as [nb Hnb].
    unfold PyDict.mem. rewrite Hnb. reflexivity.
Qed.

Lemma none_is_empty fuel start max_depth :
  find_routes_fuel fuel start None max_depth
  = find_routes_fuel fuel start (Some []) max_depth.
Proof. destruct fuel; reflexivity. Qed.

Lemma find_routes_spec (start : string) (max_depth : Z) :
  match find_routes start None max_depth with
  | Some (Ok routes) =>
      forall r, In r routes <-> continues [] start max_depth r
  | Some (Raise e) =>
      e = KeyError /\ PyDict.mem start edges = false /\ (1 < max_depth)%Z
  | None => False
  end.
Proof.
  unfold find_routes. rewrite none_is_empty.
  destruct (find_routes_fuel (S (Z.to_nat max_depth)) start (Some []) max_depth)
    as [[routes|e]|] eqn:Hrun.
  - intros r. split.
    + intros Hin.
      pose proof (find_routes_sound _ start [] max_depth routes
                    (NoDup_singleton start) (or_introl eq_refl) Hrun) as Hall.
      rewrite List.Forall_forall in Hall. apply Hall, Hin.
    + apply (find_routes_complete _ start [] max_depth routes Hrun).
  - destruct (PyDict.mem start edges) eqn:Hkey.
    + destruct (find_routes_returns (S (Z.to_nat max_depth)) start []
                  max_depth) as [routes Hr]; [cbn [app length]; lia|exact Hkey|].
      congruence.
    + cbn [find_routes_fuel app length] in Hrun.
      destruct (max_depth <=? Z.of_nat 1)%Z eqn:Hdepth; [discriminate|].
      apply Z.leb_gt in Hdepth. unfold PyDict.mem in Hkey.
      destruct (PyDict.get start edges); [discriminate|].
      injection Hrun as <-. split; [reflexivity|]. split; [reflexivity|lia].
  - destruct (PyDict.mem start edges) eqn:Hkey.
    + destruct (find_routes_returns (S (Z.to_nat max_depth)) start []
                  max_depth) as [routes Hr]; [cbn [app length]; lia|exact Hkey|].
      congruence.
    + cbn [find_routes_fuel app length] in Hrun.
      destruct (max_depth <=? Z.of_nat 1)%Z; [discriminate|].
      unfold PyDict.mem in Hkey.
      destruct (PyDict.get start edges); discriminate.
Qed.

End RouteFacts.

(** X21.  [find_routes(start)] lists exactly the simple routes from
    [start].  Called without a path it returns, for every start node and
    depth, the lists that begin with [start], follow the edges of the
    network, visit no node twice, end at a boundary node and have between two
    and [max_depth] nodes: each of them and nothing else.  It raises only
    [KeyError], and only when [start] has no entry in [edges] and
    [max_depth] is above one. *)
Theorem find_routes_lists_the_simple_routes (start : string) (max_depth : Z) :
  match RouteGen.find_routes start None max_depth with
  | Some (Ok routes) =>
      forall r, In r routes <-> RouteProps.continues [] start max_depth r
  | Some (Raise e) =>
      e = KeyError /\ PyDict.mem start RouteGen.edges = false /\ (1 < max_depth)%Z
  | None => False
  end.
Proof. exact (RouteFacts.find_routes_spec start max_depth). Qed.

Module AllRoutesFacts.
Import RouteGen RouteProps.

Lemma all_routes_from_spec (starts : list string) :
  (forall node, In node starts -> PyDict.mem node edges = true) ->
  forall acc,
    exists result,
      all_routes_from starts acc = Some (Ok result)
      /\ forall r, In r result
                   <-> In r acc \/ exists node, In node starts /\ continues [] node 6 r.
Proof.
  induction starts as [|node rest IH]; intros Hkeys acc.
  - exists acc. split; [reflexivity|]. intros r. split; [auto|].
    intros [H|(node & [] & _)]. exact H.
  - cbn [all_routes_from].
    pose proof (RouteFacts.find_routes_spec node 6) as Hspec.
    destruct (find_routes node None 6) as [[found|e]|].
    + destruct (IH (fun n Hn => Hkeys n (or_intror Hn)) (acc ++ found))
        as (result & Hrun & Hmem).
      exists result. split; [exact Hrun|]. intros r. rewrite Hmem, in_app_iff, Hspec.
      split.
      * intros [[H|H]|(n & Hn & Hc)]; [left; exact H| |].
        -- right. exists node. split; [left; reflexivity|exact H].
        -- right. exists n. split; [right; exact Hn|exact Hc].
      * intros [H|(n & [<-|Hn] & Hc)]; [left; left; exact H|left; right; exact Hc|].
        right. exists n. split; assumption.
    + destruct Hspec as (_ & Hk & _). rewrite (Hkeys node (or_introl eq_refl)) in Hk.
      discriminate.
    + destruct Hspec.
Qed.

End AllRoutesFacts.

(** X22.  The routes written to the route file.  The script's loop over
    all nine nodes returns without raising, and [all_routes] holds exactly
    the simple routes of two to six nodes along the edges of the network that
    end at a boundary node, from every start node, the interior node [E]
    included. *)
Theorem all_routes_are_the_simple_routes :
  exists routes,
    RouteGen.all_routes = Some (Ok routes)
    /\ forall r,
         In r routes
         <-> exists node, In node RouteGen.nodes /\ RouteProps.continues [] node 6 r.
Proof.
  destruct (AllRoutesFacts.all_routes_from_spec RouteGen.nodes) with (acc := @nil (list string))
    as (routes & Hrun & Hmem).
  - intros node Hin. cbn in Hin.
    repeat (destruct Hin as [<-|Hin]; [vm_compute; reflexivity|]). destruct Hin.
  - exists routes. split; [exact Hrun|]. intros r. rewrite Hmem. split.
    + intros [[]|H]. exact H.
    + intros H. right. exact H.
Qed.
